(** * pywebp: the Python glue around the WebP bindings

    The repository's own Python code that is available consists of
    [setup.py] (the long-description loader) and [tests/test_webp.py]
    (the Python-2 backport of [tempfile.TemporaryDirectory] and the unit
    tests).  Both are embedded here as executable functions over an
    explicit model of Python's exceptions and of the operating-system
    calls the code performs. *)

From Stdlib Require Import String List Bool Arith Lia.
Import ListNotations.
Local Open Scope string_scope.

(** ** Python exceptions *)

Module Py.

(** The exception classes the two source files can meet, with the
    builtin class hierarchy restricted to them. *)
Inductive exc_class : Type :=
| Exception
| ImportError
| ModuleNotFoundError
| OSError
| TypeError
| AttributeError
| NameError
| RuntimeError
| Warning
| DeprecationWarning
| ResourceWarning.

Definition exc_class_eqb (c d : exc_class) : bool :=
  match c, d with
  | Exception, Exception | ImportError, ImportError
  | ModuleNotFoundError, ModuleNotFoundError | OSError, OSError
  | TypeError, TypeError | AttributeError, AttributeError
  | NameError, NameError | RuntimeError, RuntimeError
  | Warning, Warning | DeprecationWarning, DeprecationWarning
  | ResourceWarning, ResourceWarning => true
  | _, _ => false
  end.

(** Direct base class ([None] for the root of the hierarchy). *)
Definition base (c : exc_class) : option exc_class :=
  match c with
  | Exception => None
  | ModuleNotFoundError => Some ImportError
  | DeprecationWarning | ResourceWarning => Some Warning
  | _ => Some Exception
  end.

Fixpoint issubclass_upto (n : nat) (c d : exc_class) : bool :=
  exc_class_eqb c d ||
  match n with
  | O => false
  | S n' => match base c with
            | Some b => issubclass_upto n' b d
            | None => false
            end
  end.

(** The hierarchy above has depth 3. *)
Definition issubclass : exc_class -> exc_class -> bool := issubclass_upto 3.

(** A raised exception: its class and [str(ex)]. *)
Record exn : Type := mk_exn { exn_class : exc_class; exn_str : string }.

Definition isinstance (e : exn) (c : exc_class) : bool :=
  issubclass (exn_class e) c.

(** [except (c1, c2, ...)] matches [e]. *)
Definition except_matches (cs : list exc_class) (e : exn) : bool :=
  existsb (isinstance e) cs.

(** What running a piece of Python code produces: a value, or a raised
    exception. *)
Inductive result (A : Type) : Type :=
| Ok (a : A)
| Raise (e : exn).
Arguments Ok {A} a.
Arguments Raise {A} e.

(** [needle in hay] on strings. *)
Fixpoint str_contains (needle hay : string) : bool :=
  String.prefix needle hay ||
  match hay with
  | EmptyString => false
  | String _ rest => str_contains needle rest
  end.

End Py.

(** ** setup.py: [get_long_description] *)

Module Setup.
Import Py.

(** The [pypandoc] module object as the function uses it: its [convert]
    attribute called on a source and a target format.  A missing attribute
    is the call raising [AttributeError]. *)
Record pypandoc_module : Type :=
  { convert : string -> string -> result string }.

(** What the function observes of the interpreter and the working
    directory. *)
Record env : Type :=
  { import_pypandoc : result pypandoc_module;   (* [import pypandoc] *)
    open_read : string -> result string }.      (* [open(f).read()] *)

(** The operations performed, in order. *)
Inductive event : Type :=
| EvImport
| EvConvert (source target : string)
| EvOpenRead (file : string).

Definition event_eqb (a b : event) : bool :=
  match a, b with
  | EvImport, EvImport => true
  | EvConvert s t, EvConvert s' t' => String.eqb s s' && String.eqb t t'
  | EvOpenRead f, EvOpenRead f' => String.eqb f f'
  | _, _ => false
  end.

(** Code that logs the operations it performs. *)
Definition M (A : Type) : Type := list event * result A.

Definition ret {A} (a : A) : M A := ([], Ok a).

Definition bind {A B} (m : M A) (k : A -> M B) : M B :=
  match m with
  | (tr, Ok a) => let (tr', r) := k a in ((tr ++ tr')%list, r)
  | (tr, Raise e) => (tr, Raise e)
  end.

Definition perform {A} (ev : event) (r : result A) : M A := ([ev], r).

(** [try: body except cs: handler] (the handler does not bind the
    exception, as in the source). *)
Definition try_except {A} (body : M A) (cs : list exc_class) (handler : M A)
  : M A :=
  match body with
  | (tr, Raise e) =>
      if except_matches cs e
      then let (tr', r) := handler in ((tr ++ tr')%list, r)
      else (tr, Raise e)
  | other => other
  end.

Notation "x <- m ;; k" := (bind m (fun x => k))
  (at level 100, m at next level, right associativity).

(** The body of the [try]: both statements are inside it. *)
Definition try_body (E : env) : M string :=
  pypandoc <- perform EvImport (import_pypandoc E) ;;
  perform (EvConvert "README.md" "rst") (convert pypandoc "README.md" "rst").

Definition get_long_description_traced (E : env) : M string :=
  long_description <-
    try_except (try_body E) [ImportError]
      (perform (EvOpenRead "README.md") (open_read E "README.md")) ;;
  ret long_description.

Definition get_long_description (E : env) : result string :=
  snd (get_long_description_traced E).

(** The function fell back to reading the file itself. *)
Definition fell_back (E : env) : bool :=
  existsb (event_eqb (EvOpenRead "README.md"))
          (fst (get_long_description_traced E)).

(** The [try] body raises exactly what its first failing statement
    raises. *)
Definition body_raises (E : env) (e : exn) : Prop :=
  import_pypandoc E = Raise e \/
  exists m, import_pypandoc E = Ok m /\ convert m "README.md" "rst" = Raise e.

(** The behaviour in which only the import is guarded: with pypandoc
    importable the function does what the conversion does, it falls back
    exactly when the import raises [ImportError], and any other exception
    of the import propagates. *)
Definition only_import_guarded (E : env) : Prop :=
  (forall m, import_pypandoc E = Ok m ->
             get_long_description E = convert m "README.md" "rst") /\
  (fell_back E = true <->
   exists e, import_pypandoc E = Raise e /\ isinstance e ImportError = true) /\
  (forall e, import_pypandoc E = Raise e -> isinstance e ImportError = false ->
             get_long_description E = Raise e).

(** [import pypandoc] succeeded. *)
Definition imported (E : env) : bool :=
  match import_pypandoc E with
  | Ok _ => true
  | Raise _ => false
  end.

(** *** Concrete environments *)

Definition readme_text : string := "# WebP Python bindings".
Definition readme_rst : string := "WebP Python bindings
====================".

Definition files_with_readme (f : string) : result string :=
  if String.eqb f "README.md" then Ok readme_text
  else Raise (mk_exn OSError "[Errno 2] No such file or directory").

Definition files_without_readme (f : string) : result string :=
  Raise (mk_exn OSError "[Errno 2] No such file or directory").

(** pypandoc installed and working. *)
Definition pandoc_ok : pypandoc_module :=
  {| convert := fun _ _ => Ok readme_rst |}.

(** pypandoc installed, the pandoc binary missing. *)
Definition pandoc_no_binary : pypandoc_module :=
  {| convert := fun _ _ =>
       Raise (mk_exn OSError "No pandoc was found") |}.

(** pypandoc installed, but the conversion fails on an import of its own
    (a lazily imported helper module is missing). *)
Definition pandoc_lazy_import : pypandoc_module :=
  {| convert := fun _ _ =>
       Raise (mk_exn ModuleNotFoundError "No module named 'pandocfilters'") |}.

Definition env_ok : env :=
  {| import_pypandoc := Ok pandoc_ok; open_read := files_with_readme |}.

Definition env_not_installed : env :=
  {| import_pypandoc :=
       Raise (mk_exn ModuleNotFoundError "No module named 'pypandoc'");
     open_read := files_with_readme |}.

Definition env_not_installed_no_readme : env :=
  {| import_pypandoc :=
       Raise (mk_exn ModuleNotFoundError "No module named 'pypandoc'");
     open_read := files_without_readme |}.

Definition env_no_binary : env :=
  {| import_pypandoc := Ok pandoc_no_binary; open_read := files_with_readme |}.

Definition env_lazy_import : env :=
  {| import_pypandoc := Ok pandoc_lazy_import;
     open_read := files_with_readme |}.

Definition env_broken_module : env :=
  {| import_pypandoc := Raise (mk_exn AttributeError "module has no attribute");
     open_read := files_with_readme |}.

End Setup.

(** ** tests/test_webp.py: the [TemporaryDirectory] backport *)

Module TempDir.
Import Py.

(** A path name, as its components relative to the working directory;
    the empty list is the empty string (which Python takes as false). *)
Definition pathname : Type := list string.

Definition path_str (p : pathname) : string := String.concat "/" p.

(** The instance attributes set by [__init__]. *)
Record TemporaryDirectory : Type :=
  { _closed : bool;
    name : option pathname }.   (* [None] is Python's [None] *)

(** Truth value of [self.name]. *)
Definition truthy (n : option pathname) : bool :=
  match n with
  | Some (_ :: _) => true
  | _ => false
  end.

(** *** Code over a mutable state

    A computation runs on a state and keeps the changes it made when it
    raises. *)
Definition M (S A : Type) : Type := S -> result A * S.

Definition ret {S A} (a : A) : M S A := fun s => (Ok a, s).

Definition raise {S A} (e : exn) : M S A := fun s => (Raise e, s).

Definition bind {S A B} (m : M S A) (k : A -> M S B) : M S B :=
  fun s =>
    match m s with
    | (Ok a, s') => k a s'
    | (Raise e, s') => (Raise e, s')
    end.

(** A call that only inspects the state, and one that may change it. *)
Definition query {S A} (f : S -> result A) : M S A :=
  fun s => (f s, s).

Definition call {S A} (f : S -> result A * S) : M S A := f.

(** [try: body except cs as ex: handler ex]. *)
Definition try_except {S A} (body : M S A) (cs : list exc_class)
  (handler : exn -> M S A) : M S A :=
  fun s =>
    match body s with
    | (Raise e, s') =>
        if except_matches cs e then handler e s' else (Raise e, s')
    | other => other
    end.

(** [for x in xs: body x]. *)
Fixpoint for_each {S X} (xs : list X) (body : X -> M S unit) : M S unit :=
  match xs with
  | [] => ret tt
  | x :: xs' => bind (body x) (fun _ => for_each xs' body)
  end.

Notation "x <- m ;; k" := (bind m (fun x => k))
  (at level 100, m at next level, right associativity).
Notation "m ;;; k" := (bind m (fun _ => k))
  (at level 100, right associativity).

(** What the interpreter raises when a call would exceed its recursion
    limit; the class never reads its text. *)
Definition recursion_limit_exceeded : exn :=
  mk_exn RuntimeError "maximum recursion depth exceeded".

(** *** The class, over the functions it holds as class attributes *)

Section Class.

(** The world outside the object: the file system, the warnings. *)
Variable W : Type.

(** What the methods find in the class and in the interpreter: the class
    attributes [_listdir] ... [_warn] (bound to [os.listdir],
    [os.path.join], [os.path.isdir], [os.path.islink], [os.remove],
    [os.rmdir] and [warnings.warn]); whether the global name
    [ResourceWarning] exists; [self.__class__.__name__]; and the builtin
    [repr] on what [self.name] can hold. *)
Record class_attributes : Type :=
  { _listdir : pathname -> W -> result (list string);
    _path_join : pathname -> string -> W -> result pathname;
    _isdir : pathname -> W -> result bool;
    _islink : pathname -> W -> result bool;
    _remove : pathname -> W -> result unit * W;
    _rmdir : pathname -> W -> result unit * W;
    _warn : string -> exc_class -> W -> result unit * W;
    ResourceWarning_defined : bool;
    __name__ : string;
    repr : option pathname -> string }.

Variable cls : class_attributes.

(** [mkdtemp(suffix, prefix, dir)], imported from [tempfile]. *)
Variable mkdtemp :
  string -> string -> option pathname -> W -> result pathname * W.

(** ["<{} {!r}>".format(self.__class__.__name__, self.name)]. *)
Definition __repr__ (self : TemporaryDirectory) : string :=
  "<" ++ __name__ cls ++ " " ++ repr cls (name self) ++ ">".

(** One iteration of the loop of [_rmtree]; [recurse] is
    [self._rmtree]. *)
Definition _rmtree_entry (recurse : pathname -> M W unit)
  (path : pathname) (name : string) : M W unit :=
  fullname <- query (_path_join cls path name) ;;
  isdir <- try_except
             (d <- query (_isdir cls fullname) ;;
              if d
              then (l <- query (_islink cls fullname) ;; ret (negb l))
              else ret false)
             [OSError] (fun _ => ret false) ;;
  if isdir
  then recurse fullname
  else try_except (call (_remove cls fullname)) [OSError] (fun _ => ret tt).

(** [_rmtree(self, path)].  [depth] is the number of nested calls of
    [_rmtree] that the interpreter's recursion limit leaves room for (the
    frames of the functions [_rmtree] calls counted with its own); a call
    beyond it raises [RuntimeError]. *)
Fixpoint _rmtree (depth : nat) (path : pathname) : M W unit :=
  match depth with
  | O => raise recursion_limit_exceeded
  | S depth' =>
      names <- query (_listdir cls path) ;;
      for_each names (_rmtree_entry (_rmtree depth') path) ;;;
      try_except (call (_rmdir cls path)) [OSError] (fun _ => ret tt)
  end.

(** The state: the world and the object [self]. *)
Record state : Type :=
  { world : W;
    self : TemporaryDirectory }.

(** The state left by a call that went past [_rmtree]. *)
Definition closed_with (st : state) (w : W) : state :=
  {| world := w;
     self := {| _closed := true; name := name (self st) |} |}.

(** The state when [_rmtree] raised: the world as it was left, the object
    as it was. *)
Definition left_open (st : state) (w : W) : state :=
  {| world := w; self := self st |}.

Definition on_world {A} (m : M W A) : M state A :=
  fun st =>
    let (r, w') := m (world st) in
    (r, {| world := w'; self := self st |}).

Definition set__closed (b : bool) : M state unit :=
  fun st =>
    (Ok tt, {| world := world st;
               self := {| _closed := b; name := name (self st) |} |}).

Definition set_name (n : option pathname) : M state unit :=
  fun st =>
    (Ok tt, {| world := world st;
               self := {| _closed := _closed (self st); name := n |} |}).

Definition ResourceWarning_NameError : exn :=
  mk_exn NameError "global name 'ResourceWarning' is not defined".

(** The text ["Implicitly cleaning up {!r}".format(self)]. *)
Definition implicit_cleanup_message (self : TemporaryDirectory) : string :=
  "Implicitly cleaning up " ++ __repr__ self.

(** [self._warn("Implicitly cleaning up {!r}".format(self),
    ResourceWarning)]: the message is built, then the global name is
    looked up, then the call is made. *)
Definition warn_implicit_cleanup : M state unit :=
  fun st =>
    let message := implicit_cleanup_message (self st) in
    if ResourceWarning_defined cls
    then on_world (call (_warn cls message ResourceWarning)) st
    else raise ResourceWarning_NameError st.

(** [cleanup(self, _warn=False)].  The [try] statement yields whether its
    handler executed [return]. *)
Definition cleanup (depth : nat) (_warn : bool) : M state unit :=
  fun st =>
    match name (self st) with
    | Some path =>
        if truthy (name (self st)) && negb (_closed (self st))
        then
          (returned <-
             try_except
               (on_world (_rmtree depth path) ;;; ret false)
               [TypeError; AttributeError]
               (fun ex =>
                  if negb (str_contains "None" (exn_str ex))
                  then raise ex
                  else ret true) ;;
           if (returned : bool) then ret tt
           else
             set__closed true ;;;
             if _warn then warn_implicit_cleanup else ret tt) st
        else ret tt st
    | None => ret tt st
    end.

(** [__exit__(self, exc, value, tb)]. *)
Definition __exit__ (depth : nat) : M state unit := cleanup depth false.

(** [__del__(self)]. *)
Definition __del__ (depth : nat) : M state unit := cleanup depth true.

(** [__enter__(self)]. *)
Definition __enter__ : M state (option pathname) :=
  fun st => (Ok (name (self st)), st).

(** [__init__(self, suffix, prefix, dir)]. *)
Definition __init__ (suffix prefix : string) (dir : option pathname)
  : M state unit :=
  set__closed false ;;;
  set_name None ;;;
  p <- on_world (call (mkdtemp suffix prefix dir)) ;;
  set_name (Some p).

(** What [cleanup] makes of an exception of [_rmtree]: a [TypeError] or
    [AttributeError] whose text holds [None] ends the call, any other
    exception goes on. *)
Definition after_rmtree_raised (e : exn) : result unit :=
  if except_matches [TypeError; AttributeError] e
     && str_contains "None" (exn_str e)
  then Ok tt
  else Raise e.

(** What [cleanup] does once [_rmtree] has returned in the world
    [w1]: [_closed] is set, and only when called with [_warn] the warning
    is attempted. *)
Definition after_rmtree_returned (warn : bool) (st : state) (w1 : W)
  : result unit * state :=
  if warn
  then if ResourceWarning_defined cls
       then let (o, w2) :=
              _warn cls (implicit_cleanup_message (self (closed_with st w1)))
                ResourceWarning w1 in
            (o, closed_with st w2)
       else (Raise ResourceWarning_NameError, closed_with st w1)
  else (Ok tt, closed_with st w1).

End Class.

Arguments _listdir {W} _ _ _.
Arguments _path_join {W} _ _ _ _.
Arguments _isdir {W} _ _ _.
Arguments _islink {W} _ _ _.
Arguments _remove {W} _ _ _.
Arguments _rmdir {W} _ _ _.
Arguments _warn {W} _ _ _ _.
Arguments ResourceWarning_defined {W} _.
Arguments __name__ {W} _.
Arguments repr {W} _ _.
Arguments world {W} _.
Arguments self {W} _.
Arguments Build_state {W} _ _.
Arguments __repr__ {W} cls self.
Arguments _rmtree {W} cls depth path _.
Arguments _rmtree_entry {W} cls recurse path name _.
Arguments cleanup {W} cls depth _warn _.
Arguments __exit__ {W} cls depth _.
Arguments __del__ {W} cls depth _.
Arguments __enter__ {W} _.
Arguments __init__ {W} mkdtemp suffix prefix dir _.
Arguments on_world {W A} m _.
Arguments closed_with {W} st w.
Arguments left_open {W} st w.
Arguments set__closed {W} b _.
Arguments set_name {W} n _.
Arguments implicit_cleanup_message {W} cls self.
Arguments warn_implicit_cleanup {W} cls _.
Arguments after_rmtree_returned {W} cls warn st w1.

(** The object as [__init__] leaves it when [mkdtemp] returned [p]. *)
Definition opened {W} (w : W) (p : pathname) : state W :=
  {| world := w; self := {| _closed := false; name := Some p |} |}.

(** *** A file system

    Files, directories, and symbolic links kept with what they resolve
    to.  A path is resolved from the working directory, through the links
    it crosses; a link to an object that another path of the tree also
    reaches is not expressed (the object would be there twice).  Why the
    system refuses a call (permissions of any kind, the length of the
    path, a busy or immutable entry) is not modelled: the world says which
    calls it refuses on which paths. *)

#[warnings="-register-all"]
Inductive node : Type :=
| File
| BrokenLink                                    (* a link to nothing *)
| Symlink (target : node)
| Dir (entries : list (string * node)).

Fixpoint find_entry (c : string) (es : list (string * node)) : option node :=
  match es with
  | [] => None
  | (k, n) :: es' => if String.eqb c k then Some n else find_entry c es'
  end.

Fixpoint update_entry (c : string) (f : node -> node)
  (es : list (string * node)) : list (string * node) :=
  match es with
  | [] => []
  | (k, n) :: es' =>
      if String.eqb c k then (k, f n) :: es'
      else (k, n) :: update_entry c f es'
  end.

Definition drop_entry (c : string) (es : list (string * node))
  : list (string * node) :=
  filter (fun e => negb (String.eqb c (fst e))) es.

(** What a node resolves to. *)
Fixpoint follow (n : node) : node :=
  match n with
  | Symlink t => follow t
  | other => other
  end.

(** Change the entries of the directory a node resolves to. *)
Fixpoint over_dir (g : list (string * node) -> list (string * node))
  (n : node) : node :=
  match n with
  | Dir es => Dir (g es)
  | Symlink t => Symlink (over_dir g t)
  | other => other
  end.

Definition child (c : string) (n : node) : option node :=
  match follow n with
  | Dir es => find_entry c es
  | _ => None
  end.

Definition drop_child (c : string) (n : node) : node :=
  over_dir (drop_entry c) n.

(** The node a path names, from [n]: links are followed on the way, not
    at the end. *)
Fixpoint lookup (n : node) (p : pathname) {struct p} : option node :=
  match p with
  | [] => Some n
  | c :: p' =>
      match child c n with
      | Some ch => lookup ch p'
      | None => None
      end
  end.

(** The same through directories proper only: no link is followed. *)
Fixpoint lookup_real (n : node) (p : pathname) {struct p} : option node :=
  match p with
  | [] => Some n
  | c :: p' =>
      match n with
      | Dir es =>
          match find_entry c es with
          | Some ch => lookup_real ch p'
          | None => None
          end
      | _ => None
      end
  end.

(** Replace the node a path names by its image under [f]. *)
Fixpoint update (n : node) (p : pathname) (f : node -> node) {struct p}
  : node :=
  match p with
  | [] => f n
  | c :: p' => over_dir (update_entry c (fun ch => update ch p' f)) n
  end.

(** [os.lstat] and [os.stat], as far as the kind of node goes: the empty
    path names nothing; [stat] follows a link at the end. *)
Definition lstat (root : node) (p : pathname) : option node :=
  match p with
  | [] => None
  | _ => lookup root p
  end.

Definition stat (root : node) (p : pathname) : option node :=
  match lstat root p with
  | Some n =>
      match follow n with
      | BrokenLink => None
      | m => Some m
      end
  | None => None
  end.

Definition parent (p : pathname) : pathname := removelast p.

Definition basename (p : pathname) : string := last p EmptyString.

(** Take the entry named by [p] out of its directory. *)
Definition unlink (root : node) (p : pathname) : node :=
  update root (parent p) (drop_child (basename p)).

(** How deep the directories of a tree nest; links are not entered. *)
Fixpoint height (n : node) : nat :=
  match n with
  | Dir es => S (list_max (map (fun e => height (snd e)) es))
  | _ => 0
  end.

Definition is_dir (n : node) : bool :=
  match n with
  | Dir _ => true
  | _ => false
  end.

Definition is_link (n : node) : bool :=
  match n with
  | Symlink _ | BrokenLink => true
  | _ => false
  end.

(** The system calls of the class. *)
Inductive syscall : Type := SysListdir | SysStat | SysRemove | SysRmdir.

(** What [warnings.warn] does with a warning, by the filter in force:
    raise it, drop it, show it, or show it unless it was shown already. *)
Inductive warning_action : Type :=
| ActError | ActIgnore | ActAlways | ActOnce.

(** The world: the tree under the working directory, the calls the
    system refuses, the warnings filter and the warnings shown. *)
Record posix_world : Type :=
  { root : node;
    refuses : syscall -> pathname -> bool;
    action : warning_action;
    warnings : list (exc_class * string) }.

Definition with_root (w : posix_world) (r : node) : posix_world :=
  {| root := r; refuses := refuses w; action := action w;
     warnings := warnings w |}.

Definition with_warning (w : posix_world) (x : exc_class * string)
  : posix_world :=
  {| root := root w; refuses := refuses w; action := action w;
     warnings := (warnings w ++ [x])%list |}.

Definition ENOENT : exn := mk_exn OSError "[Errno 2] No such file or directory".
Definition EACCES : exn := mk_exn OSError "[Errno 13] Permission denied".
Definition ENOTDIR : exn := mk_exn OSError "[Errno 20] Not a directory".
Definition EISDIR : exn := mk_exn OSError "[Errno 21] Is a directory".
Definition ENOTEMPTY : exn := mk_exn OSError "[Errno 39] Directory not empty".

(** [os.listdir]: the names in the directory the path resolves to. *)
Definition os_listdir (p : pathname) (w : posix_world) : result (list string) :=
  if refuses w SysListdir p then Raise EACCES
  else match stat (root w) p with
       | Some (Dir es) => Ok (map fst es)
       | Some _ => Raise ENOTDIR
       | None => Raise ENOENT
       end.

Definition os_path_join (p : pathname) (c : string) (_ : posix_world)
  : result pathname :=
  Ok (p ++ [c])%list.

(** [os.path.isdir] and [os.path.islink] answer [False] when the
    underlying [stat] or [lstat] fails. *)
Definition os_path_isdir (p : pathname) (w : posix_world) : result bool :=
  if refuses w SysStat p then Ok false
  else match stat (root w) p with
       | Some (Dir _) => Ok true
       | _ => Ok false
       end.

Definition os_path_islink (p : pathname) (w : posix_world) : result bool :=
  if refuses w SysStat p then Ok false
  else match lstat (root w) p with
       | Some n => Ok (is_link n)
       | None => Ok false
       end.

(** [os.remove] takes out a file or a link, never a directory. *)
Definition os_remove (p : pathname) (w : posix_world)
  : result unit * posix_world :=
  if refuses w SysRemove p then (Raise EACCES, w)
  else match lstat (root w) p with
       | None => (Raise ENOENT, w)
       | Some (Dir _) => (Raise EISDIR, w)
       | Some _ => (Ok tt, with_root w (unlink (root w) p))
       end.

(** [os.rmdir] takes out an empty directory. *)
Definition os_rmdir (p : pathname) (w : posix_world)
  : result unit * posix_world :=
  if refuses w SysRmdir p then (Raise EACCES, w)
  else match lstat (root w) p with
       | None => (Raise ENOENT, w)
       | Some (Dir []) => (Ok tt, with_root w (unlink (root w) p))
       | Some (Dir (_ :: _)) => (Raise ENOTEMPTY, w)
       | Some _ => (Raise ENOTDIR, w)
       end.

Definition warning_eqb (x y : exc_class * string) : bool :=
  exc_class_eqb (fst x) (fst y) && String.eqb (snd x) (snd y).

Definition warnings_warn (message : string) (category : exc_class)
  (w : posix_world) : result unit * posix_world :=
  match action w with
  | ActError => (Raise (mk_exn category message), w)
  | ActIgnore => (Ok tt, w)
  | ActAlways => (Ok tt, with_warning w (category, message))
  | ActOnce =>
      if existsb (warning_eqb (category, message)) (warnings w)
      then (Ok tt, w)
      else (Ok tt, with_warning w (category, message))
  end.

(** *** [repr] of a byte string, as Python 2 prints it *)

Definition quote1 : Ascii.ascii := Ascii.ascii_of_nat 39.
Definition quote2 : Ascii.ascii := Ascii.ascii_of_nat 34.
Definition backslash : Ascii.ascii := Ascii.ascii_of_nat 92.

Fixpoint has_char (c : Ascii.ascii) (s : string) : bool :=
  match s with
  | EmptyString => false
  | String x rest => Ascii.eqb c x || has_char c rest
  end.

Definition hex_digit (n : nat) : Ascii.ascii :=
  match String.get n "0123456789abcdef" with
  | Some c => c
  | None => quote1
  end.

(** One character inside the quotes. *)
Definition repr_char (q c : Ascii.ascii) : string :=
  let n := Ascii.nat_of_ascii c in
  if Ascii.eqb c q || Ascii.eqb c backslash
  then String backslash (String c EmptyString)
  else if Nat.eqb n 9 then String backslash "t"
  else if Nat.eqb n 10 then String backslash "n"
  else if Nat.eqb n 13 then String backslash "r"
  else if Nat.ltb n 32 || Nat.leb 127 n
  then String backslash
         ("x" ++ String (hex_digit (n / 16))
                   (String (hex_digit (n mod 16)) EmptyString))
  else String c EmptyString.

Fixpoint repr_chars (q : Ascii.ascii) (s : string) : string :=
  match s with
  | EmptyString => EmptyString
  | String c rest => repr_char q c ++ repr_chars q rest
  end.

(** Single quotes, unless the string holds one and no double quote. *)
Definition str_repr (s : string) : string :=
  let q := if has_char quote1 s && negb (has_char quote2 s)
           then quote2 else quote1 in
  String q (repr_chars q s ++ String q EmptyString).

Definition repr_of_name (n : option pathname) : string :=
  match n with
  | None => "None"
  | Some p => str_repr (path_str p)
  end.

(** The class as the module defines it, for names that are byte
    strings, in an interpreter with or without the builtin
    [ResourceWarning] (Python 2 has none). *)
Definition posix (has_ResourceWarning : bool) : class_attributes posix_world :=
  {| _listdir := os_listdir;
     _path_join := os_path_join;
     _isdir := os_path_isdir;
     _islink := os_path_islink;
     _remove := os_remove;
     _rmdir := os_rmdir;
     _warn := warnings_warn;
     ResourceWarning_defined := has_ResourceWarning;
     __name__ := "TemporaryDirectory";
     repr := repr_of_name |}.

(** *** What [_rmtree] may and may not do to the tree *)

(** [p] is a prefix of [x]: [x] is [p] or lies below it. *)
Fixpoint is_prefix (p x : pathname) : bool :=
  match p, x with
  | [], _ => true
  | c :: p', k :: x' => String.eqb c k && is_prefix p' x'
  | _ :: _, [] => false
  end.

(** What a node is, without what it holds or points to. *)
Inductive node_kind : Type := KFile | KLink | KDir.

Definition kind (n : node) : node_kind :=
  match n with
  | File => KFile
  | BrokenLink | Symlink _ => KLink
  | Dir _ => KDir
  end.

(** [r'] comes from [r] by the removals that [os.remove] and [os.rmdir]
    grant at or below [p]: of a file or a link, or of an empty directory,
    that the system (its refusals are [rf]) does not refuse to remove. *)
Inductive removals (rf : syscall -> pathname -> bool) (p : pathname)
  (r : node) : node -> Prop :=
| removals_none : removals rf p r r
| removals_entry r' s n :
    removals rf p r r' ->
    rf SysRemove (p ++ s)%list = false ->
    lstat r' (p ++ s)%list = Some n -> is_dir n = false ->
    removals rf p r (unlink r' (p ++ s)%list)
| removals_dir r' s :
    removals rf p r r' ->
    rf SysRmdir (p ++ s)%list = false ->
    lstat r' (p ++ s)%list = Some (Dir []) ->
    removals rf p r (unlink r' (p ++ s)%list).

(** The effect of a call on the world: such removals, and nothing
    else. *)
Definition removes (p : pathname) (w w' : posix_world) : Prop :=
  removals (refuses w) p (root w) (root w') /\ w' = with_root w (root w').

(** [_rmtree] descends into an entry when [os.path.isdir] says yes and
    [os.path.islink] says no. *)
Definition descends (w : posix_world) (u : pathname) : bool :=
  match os_path_isdir u w, os_path_islink u w with
  | Ok true, Ok false => true
  | _, _ => false
  end.

(** The entry [p/q] is there, reached from [p] through directories
    proper. *)
Definition held (r : node) (p q : pathname) : Prop :=
  (forall q1 q2 : pathname,
     q = (q1 ++ q2)%list -> q2 <> [] ->
     exists es, lookup r (p ++ q1)%list = Some (Dir es)) /\
  exists n, lookup r (p ++ q)%list = Some n.

(** What a path reaches in [r'], it reached in [r], as the same kind of
    node and at least as high. *)
Definition shrunk (r r' : node) : Prop :=
  forall (x : pathname) n',
    lookup r' x = Some n' ->
    exists n, lookup r x = Some n /\ height n' <= height n /\ kind n' = kind n.

(** The entries [es'] are some of [es], each shrunk. *)
Definition entries_shrunk (es es' : list (string * node)) : Prop :=
  (forall a ch', find_entry a es' = Some ch' ->
     exists ch, find_entry a es = Some ch /\ shrunk ch ch') /\
  (forall e', In e' es' ->
     exists e, In e es /\ height (snd e') <= height (snd e)).

(** The world refuses no call of the kind [sc] at or below [p]. *)
Definition grants (w : posix_world) (sc : syscall) (p : pathname) : Prop :=
  forall s : pathname, refuses w sc (p ++ s)%list = false.

(** The directory at [p] may be removed with all it holds: it is a
    directory, within the depth [depth], and no call is refused at or
    below it. *)
Definition removable (w : posix_world) (depth : nat) (p : pathname) : Prop :=
  (exists es, lstat (root w) p = Some (Dir es) /\ height (Dir es) <= depth) /\
  forall sc, grants w sc p.

(** The directory at [p] can be listed throughout, within the depth
    [depth], but the entry that [q] names in it, through directories
    proper, is refused removal. *)
Definition stuck (w : posix_world) (depth : nat) (p q : pathname) : Prop :=
  (exists es n,
     lstat (root w) p = Some (Dir es) /\ height (Dir es) <= depth /\
     q <> [] /\ lookup_real (Dir es) q = Some n) /\
  grants w SysListdir p /\
  refuses w SysRemove (p ++ q)%list = true /\
  refuses w SysRmdir (p ++ q)%list = true.

(** The claim as first stated: a call that returns and sets [_closed]
    has removed the directory. *)
Definition closing_removes (rw : bool) (depth : nat)
  (st : state posix_world) : Prop :=
  forall p st',
    name (self st) = Some p ->
    cleanup (posix rw) depth false st = (Ok tt, st') ->
    _closed (self st') = true ->
    lstat (root (world st')) p = None.

(** *** Concrete states *)

Fixpoint path_eqb (p q : pathname) : bool :=
  match p, q with
  | [], [] => true
  | c :: p', k :: q' => String.eqb c k && path_eqb p' q'
  | _, _ => false
  end.

(** [tmp/tmpq3] holds a file, a link to a directory and a subdirectory
    with a file. *)
Definition tree_plain : node :=
  Dir [("tmp", Dir
          [("tmpq3", Dir
              [("image.webp", File);
               ("latest", Symlink (Dir [("kept.webp", File)]));
               ("frames", Dir [("0.webp", File)])]);
           ("other", File)])].

Definition tree_after : node :=
  Dir [("tmp", Dir [("other", File)])].

(** What is left when [tmp/tmpq3/frames/0.webp] cannot be removed. *)
Definition tree_left : node :=
  Dir [("tmp", Dir
          [("tmpq3", Dir [("frames", Dir [("0.webp", File)])]);
           ("other", File)])].

Definition tmpq3 : pathname := ["tmp"; "tmpq3"].

(** A world that refuses nothing and shows every warning. *)
Definition granting (r : node) : posix_world :=
  {| root := r; refuses := fun _ _ => false; action := ActAlways;
     warnings := [] |}.

(** [frames] is read-only: what it holds cannot be removed, and so
    neither can [frames]. *)
Definition frames_read_only (r : node) : posix_world :=
  {| root := r;
     refuses := fun sc p =>
       match sc with
       | SysRemove | SysRmdir =>
           path_eqb p ["tmp"; "tmpq3"; "frames"; "0.webp"]
       | _ => false
       end;
     action := ActAlways;
     warnings := [] |}.

(** [tmp/tmpq3] cannot be listed. *)
Definition tmpq3_unlistable (r : node) : posix_world :=
  {| root := r;
     refuses := fun sc p =>
       match sc with
       | SysListdir => path_eqb p tmpq3
       | _ => false
       end;
     action := ActAlways;
     warnings := [] |}.

Definition open_tmpdir (w : posix_world) : state posix_world :=
  {| world := w; self := {| _closed := false; name := Some tmpq3 |} |}.

Definition closed_tmpdir (w : posix_world) : state posix_world :=
  {| world := w; self := {| _closed := true; name := Some tmpq3 |} |}.

(** An object whose [__init__] did not get past [mkdtemp]. *)
Definition unnamed_tmpdir (w : posix_world) : state posix_world :=
  {| world := w; self := {| _closed := false; name := None |} |}.

(** [mkdtemp] in a directory without write permission. *)
Definition mkdtemp_denied (suffix prefix : string) (dir : option pathname)
  (w : posix_world) : result pathname * posix_world :=
  (Raise EACCES, w).

(** [tmp] before the temporary directory is made, and a [mkdtemp] that
    makes [tmp/tmpq3]. *)
Definition tree_fresh : node :=
  Dir [("tmp", Dir [("tmpq3", Dir []); ("other", File)])].

Definition mkdtemp_tmpq3 (suffix prefix : string) (dir : option pathname)
  (w : posix_world) : result pathname * posix_world :=
  (Ok tmpq3, with_root w tree_fresh).

(** A class whose [_listdir] attribute was set to [None] by the
    interpreter shutting down. *)
Definition posix_listdir_None : class_attributes posix_world :=
  {| _listdir := fun _ _ =>
       Raise (mk_exn TypeError "'NoneType' object is not callable");
     _path_join := os_path_join;
     _isdir := os_path_isdir;
     _islink := os_path_islink;
     _remove := os_remove;
     _rmdir := os_rmdir;
     _warn := warnings_warn;
     ResourceWarning_defined := false;
     __name__ := "TemporaryDirectory";
     repr := repr_of_name |}.

End TempDir.

(** * Properties *)

(** ** Exceptions *)

Module PyFacts.
Import Py.

Lemma exc_class_eqb_refl c : exc_class_eqb c c = true.
Proof. destruct c; reflexivity. Qed.

Lemma exc_class_eqb_eq c d : exc_class_eqb c d = true <-> c = d.
Proof.
  split; [| intros ->; apply exc_class_eqb_refl].
  destruct c, d; simpl; intros H; try reflexivity; discriminate H.
Qed.

Lemma issubclass_refl c : issubclass c c = true.
Proof. unfold issubclass; simpl. now rewrite exc_class_eqb_refl. Qed.

Example ModuleNotFoundError_is_ImportError :
  issubclass ModuleNotFoundError ImportError = true.
Proof. reflexivity. Qed.

Example OSError_is_not_ImportError : issubclass OSError ImportError = false.
Proof. reflexivity. Qed.

Example None_in_message :
  str_contains "None" "'NoneType' object is not callable" = true.
Proof. reflexivity. Qed.

End PyFacts.

(** ** [get_long_description] *)

Module SetupFacts.
Import Py Setup.

Example run_ok : get_long_description env_ok = Ok readme_rst.
Proof. reflexivity. Qed.

Example run_not_installed :
  get_long_description env_not_installed = Ok readme_text.
Proof. reflexivity. Qed.

Example run_not_installed_no_readme :
  get_long_description env_not_installed_no_readme
  = Raise (mk_exn OSError "[Errno 2] No such file or directory").
Proof. reflexivity. Qed.

Example run_no_binary :
  get_long_description env_no_binary
  = Raise (mk_exn OSError "No pandoc was found").
Proof. reflexivity. Qed.

Example run_broken_module :
  get_long_description env_broken_module
  = Raise (mk_exn AttributeError "module has no attribute").
Proof. reflexivity. Qed.


Example run_lazy_import :
  get_long_description env_lazy_import = Ok readme_text.
Proof. reflexivity. Qed.

Lemma try_body_import_raise E e :
  import_pypandoc E = Raise e -> try_body E = ([EvImport], Raise e).
Proof. intros H. unfold try_body, perform, bind. now rewrite H. Qed.

Lemma try_body_import_ok E m :
  import_pypandoc E = Ok m ->
  try_body E
  = ([EvImport; EvConvert "README.md" "rst"], convert m "README.md" "rst").
Proof. intros H. unfold try_body, perform, bind. now rewrite H. Qed.

Lemma body_raises_iff E e :
  body_raises E e <-> snd (try_body E) = Raise e.
Proof.
  unfold body_raises. split.
  - intros [H | (m & Hm & Hc)].
    + now rewrite (try_body_import_raise _ _ H).
    + rewrite (try_body_import_ok _ _ Hm). exact Hc.
  - destruct (import_pypandoc E) as [m | e0] eqn:Hi.
    + rewrite (try_body_import_ok _ _ Hi). simpl. intros Hc.
      right. exists m. split; [reflexivity | exact Hc].
    + rewrite (try_body_import_raise _ _ Hi). simpl. intros Hc.
      left. now injection Hc as ->.
Qed.

Lemma except_ImportError e :
  except_matches [ImportError] e = isinstance e ImportError.
Proof. unfold except_matches. simpl. apply orb_false_r. Qed.

Lemma trace_of_try_body_has_no_read E :
  existsb (event_eqb (EvOpenRead "README.md")) (fst (try_body E)) = false.
Proof.
  destruct (import_pypandoc E) as [m | e] eqn:Hi.
  - rewrite (try_body_import_ok _ _ Hi). reflexivity.
  - rewrite (try_body_import_raise _ _ Hi). reflexivity.
Qed.

(** How the whole function runs, by the result of the [try] body. *)
Lemma get_long_description_traced_cases E :
  match try_body E with
  | (tr, Ok s) => get_long_description_traced E = (tr, Ok s)
  | (tr, Raise e) =>
      if isinstance e ImportError
      then get_long_description_traced E
           = ((tr ++ [EvOpenRead "README.md"])%list, open_read E "README.md")
      else get_long_description_traced E = (tr, Raise e)
  end.
Proof.
  unfold get_long_description_traced, try_except.
  destruct (try_body E) as [tr [s | e]].
  - simpl. now rewrite app_nil_r.
  - rewrite except_ImportError.
    destruct (isinstance e ImportError); simpl; [| reflexivity].
    destruct (open_read E "README.md"); simpl;
      [now rewrite app_nil_r | reflexivity].
Qed.

(** C8, as the claim states it, fails: with pypandoc importable, a
    conversion that raises an [ImportError] (here its subclass
    [ModuleNotFoundError]) is caught by the same handler, so the function
    falls back to the raw README although the import did not raise, and
    the conversion error does not propagate. *)
Lemma get_long_description_convert_ImportError_caught :
  import_pypandoc env_lazy_import = Ok pandoc_lazy_import /\
  convert pandoc_lazy_import "README.md" "rst"
  = Raise (mk_exn ModuleNotFoundError "No module named 'pandocfilters'") /\
  fell_back env_lazy_import = true /\
  get_long_description env_lazy_import = Ok readme_text /\
  ~ only_import_guarded env_lazy_import.
Proof.
  repeat split; try reflexivity.
  intros (Hconv & _). specialize (Hconv pandoc_lazy_import eq_refl).
  discriminate Hconv.
Qed.

(** C8 (amended): [get_long_description] returns the pypandoc rst
    conversion of README.md when the import and the conversion both
    succeed; it falls back to the raw contents of README.md (or to whatever
    reading README.md raises) exactly when an [ImportError] is raised inside
    the [try] block, by [import pypandoc] or by the [pypandoc.convert] call;
    every other exception of the import or of the conversion, and every
    exception of the fallback read, propagates to the caller. *)
Theorem get_long_description_spec (E : env) :
  (forall m s, import_pypandoc E = Ok m ->
               convert m "README.md" "rst" = Ok s ->
               get_long_description E = Ok s /\ fell_back E = false) /\
  (fell_back E = true <->
   exists e, isinstance e ImportError = true /\ body_raises E e) /\
  (fell_back E = true ->
   get_long_description E = open_read E "README.md") /\
  (forall e, isinstance e ImportError = false -> body_raises E e ->
             get_long_description E = Raise e /\ fell_back E = false).
Proof.
  pose proof (get_long_description_traced_cases E) as Hc.
  pose proof (trace_of_try_body_has_no_read E) as Hnr.
  unfold get_long_description, fell_back.
  split; [| split; [split |]; [| | split]].
  - intros m s Hm Hs.
    rewrite (try_body_import_ok _ _ Hm), Hs in Hc. rewrite Hc. simpl.
    split; reflexivity.
  - intros Hf. destruct (try_body E) as [tr [s | e]] eqn:Hb; simpl in Hnr.
    + rewrite Hc in Hf. simpl in Hf. congruence.
    + destruct (isinstance e ImportError) eqn:Hi.
      * exists e. split; [exact Hi |].
        apply body_raises_iff. now rewrite Hb.
      * rewrite Hc in Hf. simpl in Hf. congruence.
  - intros (e & Hi & Hr). apply body_raises_iff in Hr.
    destruct (try_body E) as [tr [s | e']] eqn:Hb; simpl in Hr;
      [discriminate |].
    injection Hr as ->. rewrite Hi in Hc. rewrite Hc. simpl.
    rewrite existsb_app. simpl. apply orb_true_r.
  - intros Hf. destruct (try_body E) as [tr [s | e]] eqn:Hb; simpl in Hnr.
    + rewrite Hc in Hf. simpl in Hf. congruence.
    + destruct (isinstance e ImportError) eqn:Hi.
      * now rewrite Hc.
      * rewrite Hc in Hf. simpl in Hf. congruence.
  - intros e Hi Hr. apply body_raises_iff in Hr.
    destruct (try_body E) as [tr [s | e']] eqn:Hb; simpl in Hr;
      [discriminate |].
    injection Hr as ->. rewrite Hi in Hc. rewrite Hc. simpl.
    split; [reflexivity | exact Hnr].
Qed.

(** The amended statement at work: pypandoc missing and README.md
    present; pypandoc present and the pandoc binary missing. *)
Lemma get_long_description_spec_witness :
  (fell_back env_not_installed = true /\
   get_long_description env_not_installed = Ok readme_text) /\
  (get_long_description env_no_binary
   = Raise (mk_exn OSError "No pandoc was found") /\
   fell_back env_no_binary = false) /\
  (get_long_description env_ok = Ok readme_rst /\ fell_back env_ok = false).
Proof.
  split; [| split].
  - destruct (get_long_description_spec env_not_installed)
      as (_ & Hiff & Hread & _).
    assert (Hf : fell_back env_not_installed = true).
    { apply Hiff.
      exists (mk_exn ModuleNotFoundError "No module named 'pypandoc'").
      split; [reflexivity | left; reflexivity]. }
    split; [exact Hf | exact (Hread Hf)].
  - destruct (get_long_description_spec env_no_binary) as (_ & _ & _ & Hp).
    apply Hp; [reflexivity |].
    right. exists pandoc_no_binary. split; reflexivity.
  - destruct (get_long_description_spec env_ok) as (Hok & _).
    apply (Hok pandoc_ok readme_rst); reflexivity.
Defined.

(** X10: the operations [get_long_description] performs, in order: the import,
    always; the conversion, when the import succeeded; the reading of
    README.md, last and once, when it fell back. *)
Theorem get_long_description_trace (E : env) :
  fst (get_long_description_traced E)
  = ([EvImport]
     ++ (if imported E then [EvConvert "README.md" "rst"] else [])
     ++ (if fell_back E then [EvOpenRead "README.md"] else []))%list.
Proof.
  pose proof (get_long_description_traced_cases E) as Hc.
  unfold fell_back, imported.
  destruct (import_pypandoc E) as [m | e0] eqn:Hi.
  - rewrite (try_body_import_ok _ _ Hi) in Hc.
    destruct (convert m "README.md" "rst") as [s | e].
    + now rewrite Hc.
    + destruct (isinstance e ImportError); now rewrite Hc.
  - rewrite (try_body_import_raise _ _ Hi) in Hc.
    destruct (isinstance e0 ImportError); now rewrite Hc.
Qed.

End SetupFacts.

(** ** [TemporaryDirectory] *)

Module TempDirFacts.
Import Py TempDir.
Local Open Scope list_scope.

Example cleanup_plain :
  cleanup (posix false) 3 false (open_tmpdir (granting tree_plain))
  = (Ok tt, closed_tmpdir (granting tree_after)).
Proof. reflexivity. Qed.

Example cleanup_frames_read_only :
  cleanup (posix false) 3 false (open_tmpdir (frames_read_only tree_plain))
  = (Ok tt, closed_tmpdir (frames_read_only tree_left)).
Proof. reflexivity. Qed.

Example cleanup_too_deep :
  cleanup (posix false) 1 false (open_tmpdir (granting tree_plain))
  = (Raise recursion_limit_exceeded,
     open_tmpdir
       (granting
          (Dir [("tmp", Dir
                   [("tmpq3", Dir [("frames", Dir [("0.webp", File)])]);
                    ("other", File)])]))).
Proof. reflexivity. Qed.

Example repr_plain : str_repr "tmp/tmpq3" = "'tmp/tmpq3'"%string.
Proof. reflexivity. Qed.

Example repr_with_quote :
  str_repr "tmp/it's"
  = String quote2 ("tmp/it's" ++ String quote2 EmptyString)%string.
Proof. reflexivity. Qed.

(** *** Directory entries *)

Lemma find_entry_In c es ch :
  find_entry c es = Some ch -> In (c, ch) es.
Proof.
  induction es as [| [k n] es IH]; simpl; [discriminate |].
  destruct (String.eqb c k) eqn:E.
  - apply String.eqb_eq in E. subst k. intros [= ->]. now left.
  - intros H. right. now apply IH.
Qed.

Lemma find_entry_update_entry c f es :
  find_entry c (update_entry c f es) = option_map f (find_entry c es).
Proof.
  induction es as [| [k n] es IH]; simpl; [reflexivity |].
  destruct (String.eqb c k) eqn:E; simpl; rewrite E; [reflexivity | exact IH].
Qed.

Lemma update_entry_twice c f g es :
  update_entry c g (update_entry c f es)
  = update_entry c (fun n => g (f n)) es.
Proof.
  induction es as [| [k n] es IH]; simpl; [reflexivity |].
  destruct (String.eqb c k) eqn:E; simpl; rewrite E; [reflexivity |].
  now rewrite IH.
Qed.

Lemma update_entry_missing c f es :
  find_entry c es = None -> update_entry c f es = es.
Proof.
  induction es as [| [k n] es IH]; simpl; [reflexivity |].
  destruct (String.eqb c k); [discriminate |].
  intros H. now rewrite IH.
Qed.

Lemma update_entry_at c f g es ch :
  find_entry c es = Some ch -> f ch = g ch ->
  update_entry c f es = update_entry c g es.
Proof.
  induction es as [| [k n] es IH]; simpl; [discriminate |].
  destruct (String.eqb c k).
  - intros [= ->] ->. reflexivity.
  - intros H1 H2. now rewrite IH.
Qed.

Lemma update_entry_ext c f g es :
  (forall n, f n = g n) -> update_entry c f es = update_entry c g es.
Proof.
  intros H. induction es as [| [k n] es IH]; simpl; [reflexivity |].
  now rewrite H, IH.
Qed.

Lemma drop_entry_missing c es :
  find_entry c es = None -> drop_entry c es = es.
Proof.
  unfold drop_entry.
  induction es as [| [k n] es IH]; simpl; [reflexivity |].
  destruct (String.eqb c k); [discriminate |].
  intros H. simpl. now rewrite IH.
Qed.

Lemma find_entry_drop_entry c es : find_entry c (drop_entry c es) = None.
Proof.
  unfold drop_entry.
  induction es as [| [k n] es IH]; simpl; [reflexivity |].
  destruct (String.eqb c k) eqn:E; simpl; [exact IH |].
  now rewrite E.
Qed.

Lemma drop_entry_update_entry c f es :
  drop_entry c (update_entry c f es) = drop_entry c es.
Proof.
  unfold drop_entry.
  induction es as [| [k n] es IH]; simpl; [reflexivity |].
  destruct (String.eqb c k) eqn:E; simpl; rewrite E; simpl;
    [reflexivity | now rewrite IH].
Qed.

Lemma drop_entry_incl c es e : In e (drop_entry c es) -> In e es.
Proof. unfold drop_entry. intros H. now apply filter_In in H. Qed.

(** Dropping every listed name empties the directory. *)
Lemma drop_names_covering ns : forall es,
  (forall e, In e es -> In (fst e) ns) ->
  fold_left (fun acc c => drop_entry c acc) ns es = [].
Proof.
  induction ns as [| c ns IH]; intros es Hcov; simpl.
  - destruct es as [| e es]; [reflexivity |].
    destruct (Hcov e (or_introl eq_refl)).
  - apply IH. intros e He.
    unfold drop_entry in He. apply filter_In in He as [He Hne].
    destruct (Hcov e He) as [Heq | Hin]; [| exact Hin].
    simpl in Hne. now rewrite Heq, String.eqb_refl in Hne.
Qed.

Lemma drop_listed_names es :
  fold_left (fun acc c => drop_entry c acc) (map fst es) es = [].
Proof. apply drop_names_covering. intros e He. now apply in_map. Qed.

Lemma In_update_entry c f es e' :
  In e' (update_entry c f es) ->
  In e' es \/ exists n, In (fst e', n) es /\ snd e' = f n.
Proof.
  induction es as [| [k n] es IH]; simpl; [tauto |].
  destruct (String.eqb c k); simpl.
  - intros [<- | H]; [| tauto]. right. exists n. simpl. tauto.
  - intros [<- | H]; [tauto |].
    destruct (IH H) as [H' | (m & H' & Hm)]; [tauto |].
    right. exists m. tauto.
Qed.


Lemma find_entry_update_entry_other c c' f es :
  String.eqb c' c = false ->
  find_entry c' (update_entry c f es) = find_entry c' es.
Proof.
  intros Hne. induction es as [| [k n] es IH]; simpl; [reflexivity |].
  destruct (String.eqb c k) eqn:E; simpl.
  - apply String.eqb_eq in E. subst k. now rewrite Hne.
  - destruct (String.eqb c' k); [reflexivity | exact IH].
Qed.


Lemma find_entry_after_drop c c' es ch :
  find_entry c' (drop_entry c es) = Some ch -> find_entry c' es = Some ch.
Proof.
  unfold drop_entry.
  induction es as [| [k n] es IH]; simpl; [discriminate |].
  destruct (String.eqb c k) eqn:E; simpl.
  - intros H. destruct (String.eqb c' k) eqn:E'; [| now apply IH].
    apply String.eqb_eq in E, E'. subst.
    fold (drop_entry k es) in H. now rewrite find_entry_drop_entry in H.
  - destruct (String.eqb c' k); [easy | exact IH].
Qed.


Lemma find_entry_drop_entry_other c c' es :
  String.eqb c c' = false ->
  find_entry c' (drop_entry c es) = find_entry c' es.
Proof.
  intros Hne. unfold drop_entry.
  induction es as [| [k n] es IH]; simpl; [reflexivity |].
  destruct (String.eqb c k) eqn:E; simpl.
  - apply String.eqb_eq in E. subst k.
    rewrite String.eqb_sym, Hne. exact IH.
  - destruct (String.eqb c' k); [reflexivity | exact IH].
Qed.


Lemma list_max_dominated (l l' : list nat) :
  (forall x, In x l' -> exists y, In y l /\ x <= y) ->
  list_max l' <= list_max l.
Proof.
  intros H. apply list_max_le. rewrite Forall_forall. intros x Hx.
  destruct (H x Hx) as (y & Hy & Hle).
  assert (Hall : Forall (fun k => k <= list_max l) l) by now apply list_max_le.
  rewrite Forall_forall in Hall. specialize (Hall y Hy). lia.
Qed.


Lemma update_entry_id c es : update_entry c (fun n => n) es = es.
Proof.
  induction es as [| [k n] es IH]; simpl; [reflexivity |].
  destruct (String.eqb c k); [reflexivity | now rewrite IH].
Qed.

(** *** Nodes and links *)

Lemma follow_over_dir g n :
  follow (over_dir g n)
  = match follow n with
    | Dir es => Dir (g es)
    | m => m
    end.
Proof. induction n as [| | t IH | es]; simpl; auto. Qed.

Lemma kind_over_dir g n : kind (over_dir g n) = kind n.
Proof. now destruct n. Qed.

Lemma over_dir_at g g' n es :
  follow n = Dir es -> g es = g' es -> over_dir g n = over_dir g' n.
Proof.
  induction n as [| | t IH | es0]; simpl; try discriminate.
  - intros Hf Hg. now rewrite IH.
  - intros [= ->] ->. reflexivity.
Qed.

Lemma over_dir_no_dir g n :
  is_dir (follow n) = false -> over_dir g n = n.
Proof.
  induction n as [| | t IH | es]; simpl; try reflexivity; try discriminate.
  intros H. now rewrite IH.
Qed.

Lemma over_dir_ext g g' n :
  (forall es, g es = g' es) -> over_dir g n = over_dir g' n.
Proof.
  intros H. induction n as [| | t IH | es]; simpl; try reflexivity.
  - now rewrite IH.
  - now rewrite H.
Qed.

Lemma over_dir_twice f g n :
  over_dir g (over_dir f n) = over_dir (fun es => g (f es)) n.
Proof.
  induction n as [| | t IH | es]; simpl; try reflexivity. now rewrite IH.
Qed.

Lemma over_dir_fixed g n :
  (forall es, follow n = Dir es -> g es = es) -> over_dir g n = n.
Proof.
  induction n as [| | t IH | es]; simpl; try reflexivity; intros H.
  - now rewrite IH.
  - now rewrite H.
Qed.

Lemma child_over_dir c g n :
  child c (over_dir g n)
  = match follow n with
    | Dir es => find_entry c (g es)
    | _ => None
    end.
Proof.
  unfold child. rewrite follow_over_dir. now destruct (follow n).
Qed.

Lemma child_Some c n ch :
  child c n = Some ch ->
  exists es, follow n = Dir es /\ find_entry c es = Some ch.
Proof.
  unfold child. destruct (follow n) as [| | t | es]; try discriminate.
  intros H. now exists es.
Qed.

(** *** Paths *)

Lemma parent_snoc (p : pathname) c : parent (p ++ [c]) = p.
Proof. apply removelast_last. Qed.

Lemma basename_snoc (p : pathname) c : basename (p ++ [c]) = c.
Proof. apply last_last. Qed.

Lemma pathname_snoc (p : pathname) :
  p <> [] -> p = parent p ++ [basename p].
Proof. intros H. now apply app_removelast_last. Qed.

Lemma lstat_snoc r (p : pathname) c : lstat r (p ++ [c]) = lookup r (p ++ [c]).
Proof. destruct p; reflexivity. Qed.

Lemma lstat_lookup r (p : pathname) n : lstat r p = Some n -> lookup r p = Some n.
Proof. destruct p; [discriminate | easy]. Qed.

Lemma lstat_nonempty r (p : pathname) n : lstat r p = Some n -> p <> [].
Proof. destruct p; [discriminate | easy]. Qed.

Lemma lookup_app n : forall (p q : pathname),
  lookup n (p ++ q)
  = match lookup n p with
    | Some m => lookup m q
    | None => None
    end.
Proof.
  intros p. revert n.
  induction p as [| c p IH]; intros n q; simpl; [reflexivity |].
  destruct (child c n); [apply IH | reflexivity].
Qed.

Lemma lookup_snoc n (p : pathname) c :
  lookup n (p ++ [c])
  = match lookup n p with
    | Some m => child c m
    | None => None
    end.
Proof.
  rewrite lookup_app. destruct (lookup n p) as [m |]; [| reflexivity].
  simpl. now destruct (child c m).
Qed.

Lemma update_ext : forall (p : pathname) n f g,
  (forall m, f m = g m) -> update n p f = update n p g.
Proof.
  induction p as [| c p IH]; intros n f g H; simpl; [apply H |].
  apply over_dir_ext. intros es. apply update_entry_ext.
  intros ch. now apply IH.
Qed.

Lemma update_app : forall (p q : pathname) n f,
  update n (p ++ q) f = update n p (fun m => update m q f).
Proof.
  induction p as [| c p IH]; intros q n f; simpl; [reflexivity |].
  apply over_dir_ext. intros es. apply update_entry_ext.
  intros ch. apply IH.
Qed.

Lemma update_at : forall (p : pathname) n m f g,
  lookup n p = Some m -> f m = g m -> update n p f = update n p g.
Proof.
  induction p as [| c p IH]; intros n m f g; simpl.
  - now intros [= ->].
  - destruct (child c n) as [ch |] eqn:E; [| discriminate].
    apply child_Some in E as (es & Hf & He).
    intros Hl Hfg. apply (over_dir_at _ _ n es Hf).
    apply (update_entry_at c _ _ es ch He). now apply (IH ch m).
Qed.

Lemma update_id : forall (p : pathname) n, update n p (fun m => m) = n.
Proof.
  induction p as [| c p IH]; intros n; simpl; [reflexivity |].
  apply over_dir_fixed. intros es _.
  rewrite (update_entry_ext c _ (fun m => m) es IH).
  apply update_entry_id.
Qed.

Lemma update_fixed (p : pathname) n m f :
  lookup n p = Some m -> f m = m -> update n p f = n.
Proof.
  intros Hl Hf.
  rewrite (update_at p n m f (fun x => x) Hl Hf). apply update_id.
Qed.

Lemma update_missing : forall (p : pathname) n f,
  lookup n p = None -> update n p f = n.
Proof.
  induction p as [| c p IH]; intros n f; simpl; [discriminate |].
  intros H. apply over_dir_fixed. intros es Hf.
  unfold child in H. rewrite Hf in H.
  destruct (find_entry c es) as [ch |] eqn:E.
  - rewrite (update_entry_at c _ (fun ch => ch) es ch E (IH ch f H)).
    apply update_entry_id.
  - now apply update_entry_missing.
Qed.

Lemma lookup_update : forall (p : pathname) n m f,
  lookup n p = Some m -> lookup (update n p f) p = Some (f m).
Proof.
  induction p as [| c p IH]; intros n m f; simpl.
  - now intros [= ->].
  - rewrite child_over_dir.
    destruct (child c n) as [ch |] eqn:E; [| discriminate].
    apply child_Some in E as (es & -> & He).
    rewrite find_entry_update_entry, He. simpl. apply IH.
Qed.

Lemma update_twice : forall (p : pathname) n f g,
  update (update n p f) p g = update n p (fun m => g (f m)).
Proof.
  induction p as [| c p IH]; intros n f g; simpl; [reflexivity |].
  rewrite over_dir_twice. apply over_dir_ext. intros es.
  rewrite update_entry_twice. apply update_entry_ext. intros ch. apply IH.
Qed.

Lemma unlink_snoc r (p : pathname) c :
  unlink r (p ++ [c]) = update r p (drop_child c).
Proof. unfold unlink. now rewrite parent_snoc, basename_snoc. Qed.

Lemma child_drop_child c m : child c (drop_child c m) = None.
Proof.
  unfold drop_child. rewrite child_over_dir.
  destruct (follow m); try reflexivity. apply find_entry_drop_entry.
Qed.

(** The entry taken out is gone. *)
Lemma lstat_unlink r (p : pathname) : lstat (unlink r p) p = None.
Proof.
  destruct p as [| c0 p0] using rev_ind; [reflexivity |]. clear IHp0.
  rewrite lstat_snoc, unlink_snoc, lookup_snoc.
  destruct (lookup r p0) as [m |] eqn:E.
  - rewrite (lookup_update p0 r m _ E). apply child_drop_child.
  - rewrite (update_missing p0 r _ E). now rewrite E.
Qed.

Lemma height_entry c es ch :
  find_entry c es = Some ch -> height ch < height (Dir es).
Proof.
  simpl. intros H. apply find_entry_In in H. apply Nat.lt_succ_r.
  assert (Hall : Forall (fun k => k <= list_max (map (fun e => height (snd e)) es))
                        (map (fun e => height (snd e)) es))
    by now apply list_max_le.
  rewrite Forall_forall in Hall. apply Hall.
  now apply (in_map (fun e => height (snd e)) es (c, ch)).
Qed.

Lemma is_prefix_refl (p : pathname) : is_prefix p p = true.
Proof.
  induction p as [| c p IH]; simpl; [reflexivity |].
  now rewrite String.eqb_refl.
Qed.

Lemma is_prefix_app (p q x : pathname) :
  is_prefix (p ++ q) (p ++ x) = is_prefix q x.
Proof.
  induction p as [| c p IH]; simpl; [reflexivity |].
  now rewrite String.eqb_refl.
Qed.

Lemma is_prefix_split : forall (s q : pathname),
  is_prefix s q = true -> exists q2, q = s ++ q2.
Proof.
  induction s as [| c s IH]; intros q H; [now exists q |].
  destruct q as [| k q]; [discriminate |]. simpl in H.
  apply andb_true_iff in H as [E H]. apply String.eqb_eq in E. subst k.
  destruct (IH q H) as (q2 & ->). now exists q2.
Qed.

Lemma is_prefix_trans : forall (a b c : pathname),
  is_prefix a b = true -> is_prefix b c = true -> is_prefix a c = true.
Proof.
  intros a b c Hab Hbc.
  apply is_prefix_split in Hab as (b2 & ->).
  apply is_prefix_split in Hbc as (c2 & ->).
  rewrite <- app_assoc, <- (app_nil_r a) at 1.
  now rewrite is_prefix_app.
Qed.

Lemma is_prefix_longer (p : pathname) c s : is_prefix (p ++ c :: s) p = false.
Proof.
  induction p as [| k p IH]; simpl; [reflexivity |].
  now rewrite String.eqb_refl.
Qed.


(** *** What taking an entry out changes *)

Lemma shrunk_refl r : shrunk r r.
Proof. intros x n H. exists n. repeat split; [exact H | reflexivity]. Qed.

Lemma shrunk_trans r1 r2 r3 : shrunk r1 r2 -> shrunk r2 r3 -> shrunk r1 r3.
Proof.
  intros H12 H23 x n3 H3.
  destruct (H23 x n3 H3) as (n2 & H2 & Hle2 & K2).
  destruct (H12 x n2 H2) as (n1 & H1 & Hle1 & K1).
  exists n1. repeat split; [exact H1 | lia | congruence].
Qed.

Lemma height_entries_dominated (es es' : list (string * node)) :
  (forall e', In e' es' ->
     exists e, In e es /\ height (snd e') <= height (snd e)) ->
  height (Dir es') <= height (Dir es).
Proof.
  intros H. simpl. apply le_n_S. apply list_max_dominated.
  intros x Hx. apply in_map_iff in Hx as (e' & <- & He').
  destruct (H e' He') as (e & He & Hle).
  exists (height (snd e)). split; [| exact Hle].
  now apply (in_map (fun e => height (snd e))).
Qed.

Lemma shrunk_over_dir g n :
  (forall es, entries_shrunk es (g es)) -> shrunk n (over_dir g n).
Proof.
  intros Hg [| a x] n'; simpl.
  - intros [= <-]. exists n. split; [reflexivity |].
    split; [| apply kind_over_dir].
    destruct n as [| | t | es]; simpl; try lia.
    apply le_n_S. apply le_S_n.
    apply (height_entries_dominated es (g es)). apply Hg.
  - rewrite child_over_dir. unfold child.
    destruct (follow n) as [| | t | es]; try discriminate.
    destruct (find_entry a (g es)) as [ch' |] eqn:E; [| discriminate].
    destruct (proj1 (Hg es) a ch' E) as (ch & -> & Hs).
    apply Hs.
Qed.

Lemma entries_shrunk_drop c es : entries_shrunk es (drop_entry c es).
Proof.
  split.
  - intros a ch' H. exists ch'.
    split; [now apply find_entry_after_drop in H | apply shrunk_refl].
  - intros e' He'. exists e'.
    split; [now apply drop_entry_incl in He' | reflexivity].
Qed.

Lemma entries_shrunk_update c f es :
  (forall ch, shrunk ch (f ch)) -> entries_shrunk es (update_entry c f es).
Proof.
  intros Hf. split.
  - intros a ch'. destruct (String.eqb a c) eqn:E.
    + apply String.eqb_eq in E. subst a. rewrite find_entry_update_entry.
      destruct (find_entry c es) as [ch |]; [| discriminate].
      intros [= <-]. exists ch. split; [reflexivity | apply Hf].
    + rewrite (find_entry_update_entry_other c a f es E).
      intros H. exists ch'. split; [exact H | apply shrunk_refl].
  - intros e' He'.
    apply In_update_entry in He' as [He' | (m & Hm & Heq)].
    + exists e'. split; [exact He' | reflexivity].
    + exists (fst e', m). split; [exact Hm |]. simpl. rewrite Heq.
      destruct (Hf m [] (f m) eq_refl) as (m0 & [= <-] & Hle & _).
      exact Hle.
Qed.

Lemma shrunk_update f :
  (forall m, shrunk m (f m)) ->
  forall (q : pathname) n, shrunk n (update n q f).
Proof.
  intros Hf. induction q as [| c q IH]; intros n; simpl; [apply Hf |].
  apply shrunk_over_dir. intros es. now apply entries_shrunk_update.
Qed.

Lemma shrunk_unlink r (p : pathname) : shrunk r (unlink r p).
Proof.
  apply shrunk_update. intros m. apply shrunk_over_dir.
  intros es. apply entries_shrunk_drop.
Qed.

(** What is not at or below the entry taken out stays, as the same kind
    of node. *)
Lemma lookup_unlink_kept : forall (u : pathname) c r (y : pathname) n,
  is_prefix (u ++ [c]) y = false -> lookup r y = Some n ->
  exists n', lookup (unlink r (u ++ [c])) y = Some n' /\ kind n' = kind n.
Proof.
  intros u c r y n. rewrite unlink_snoc. revert r y n.
  induction u as [| b u IH]; intros r y n Hp Hl.
  - simpl in *. destruct y as [| a y].
    + injection Hl as <-. eexists. split; [reflexivity |].
      apply kind_over_dir.
    + simpl in Hp. rewrite andb_true_r in Hp. simpl in Hl |- *.
      unfold drop_child. rewrite child_over_dir.
      destruct (child a r) as [ch |] eqn:E; [| discriminate].
      apply child_Some in E as (es & -> & He).
      rewrite (find_entry_drop_entry_other c a es Hp), He.
      exists n. now split.
  - simpl in Hp. destruct y as [| a y].
    + injection Hl as <-. eexists. split; [reflexivity |].
      simpl. apply kind_over_dir.
    + simpl in Hl |- *. rewrite child_over_dir.
      destruct (child a r) as [ch |] eqn:E; [| discriminate].
      apply child_Some in E as (es & -> & He).
      destruct (String.eqb a b) eqn:Eab.
      * apply String.eqb_eq in Eab. subst a.
        rewrite String.eqb_refl in Hp. simpl in Hp.
        rewrite find_entry_update_entry, He. simpl.
        now apply IH.
      * rewrite (find_entry_update_entry_other b a _ es Eab), He.
        exists n. now split.
Qed.


(** *** Sequences of removals *)

Lemma removals_trans rf p r1 r2 r3 :
  removals rf p r1 r2 -> removals rf p r2 r3 -> removals rf p r1 r3.
Proof.
  intros H12 H23.
  induction H23 as [| r3 s n H23 IH Hg Hl Hd | r3 s H23 IH Hg Hl];
    [exact H12 | |].
  - now apply removals_entry with n.
  - now apply removals_dir.
Qed.

Lemma removals_below rf (p : pathname) c r r' :
  removals rf (p ++ [c]) r r' -> removals rf p r r'.
Proof.
  induction 1 as [| r' s n H IH Hg Hl Hd | r' s H IH Hg Hl];
    [apply removals_none | |]; rewrite <- app_assoc in *.
  - now apply removals_entry with n.
  - now apply removals_dir.
Qed.

Lemma removals_shrunk rf (p : pathname) r r' :
  removals rf p r r' -> shrunk r r'.
Proof.
  induction 1 as [| r' s n H IH Hg Hl Hd | r' s H IH Hg Hl];
    [apply shrunk_refl | |];
    (apply shrunk_trans with r'; [exact IH | apply shrunk_unlink]).
Qed.



Lemma unlink_kept r (u y : pathname) n :
  u <> [] -> is_prefix u y = false -> lookup r y = Some n ->
  exists n', lookup (unlink r u) y = Some n' /\ kind n' = kind n.
Proof.
  destruct u as [| c u] using rev_ind; [easy |]. intros _.
  apply lookup_unlink_kept.
Qed.

(** Removals strictly below [p] leave [p] what it was. *)
Lemma removals_keep_above rf (p : pathname) c r r' n :
  removals rf (p ++ [c]) r r' -> lookup r p = Some n ->
  exists n', lookup r' p = Some n' /\ kind n' = kind n.
Proof.
  intros H Hn.
  induction H as [| r' s m H IH Hg Hl Hd | r' s H IH Hg Hl].
  - now exists n.
  - destruct IH as (n1 & H1 & K1).
    destruct (unlink_kept r' ((p ++ [c]) ++ s) p n1) as (n2 & H2 & K2); auto.
    + now destruct p.
    + rewrite <- app_assoc. apply is_prefix_longer.
    + exists n2. split; [exact H2 | congruence].
  - destruct IH as (n1 & H1 & K1).
    destruct (unlink_kept r' ((p ++ [c]) ++ s) p n1) as (n2 & H2 & K2); auto.
    + now destruct p.
    + rewrite <- app_assoc. apply is_prefix_longer.
    + exists n2. split; [exact H2 | congruence].
Qed.

Lemma kind_dir n m : kind n = kind (Dir m) -> exists es, n = Dir es.
Proof. destruct n as [| | t | es]; try discriminate. now exists es. Qed.

(** *** An entry that is refused removal stays, with the directories
    above it *)

Lemma held_start r (p q : pathname) es n :
  lookup r p = Some (Dir es) -> q <> [] ->
  lookup_real (Dir es) q = Some n ->
  held r p q.
Proof.
  intros Hp Hq Hreal.
  assert (Hgen : forall (q1 q2 : pathname) m,
             lookup_real (Dir es) (q1 ++ q2) = Some m ->
             exists m1, lookup_real (Dir es) q1 = Some m1 /\
                        lookup_real m1 q2 = Some m).
  { generalize (Dir es). intros d q1. revert d.
    induction q1 as [| a q1 IH]; intros d q2 m; simpl.
    - intros H. now exists d.
    - destruct d as [| | t | es0]; try discriminate.
      destruct (find_entry a es0) as [ch |]; [| discriminate]. apply IH. }
  assert (Hreal_lookup : forall (x : pathname) d m,
             lookup_real d x = Some m -> lookup d x = Some m).
  { induction x as [| a x IH]; intros d m; simpl; [easy |].
    destruct d as [| | t | es0]; try discriminate. unfold child. simpl.
    destruct (find_entry a es0) as [ch |]; [| discriminate]. apply IH. }
  split.
  - intros q1 q2 -> Hq2.
    destruct (Hgen q1 q2 n Hreal) as (m1 & H1 & H2).
    destruct q2 as [| a q2]; [easy |]. simpl in H2.
    destruct m1 as [| | t | es1]; try discriminate.
    exists es1. rewrite lookup_app, Hp. now apply Hreal_lookup.
  - exists n. rewrite lookup_app, Hp. now apply Hreal_lookup.
Qed.

Lemma held_dir r (p q : pathname) :
  held r p q -> q <> [] -> exists es, lookup r p = Some (Dir es).
Proof.
  intros [Hchain _] Hq.
  destruct (Hchain [] q eq_refl Hq) as (es & H).
  rewrite app_nil_r in H. now exists es.
Qed.

(** A removal that is granted cannot be that of [p/q], which is
    refused, nor of a directory above it, which is not empty. *)
Lemma held_unlink rf r (p q s : pathname) :
  held r p q ->
  rf SysRemove (p ++ q) = true -> rf SysRmdir (p ++ q) = true ->
  (rf SysRemove (p ++ s) = false /\
   exists n, lstat r (p ++ s) = Some n /\ is_dir n = false) \/
  (rf SysRmdir (p ++ s) = false /\ lstat r (p ++ s) = Some (Dir [])) ->
  held (unlink r (p ++ s)) p q.
Proof.
  intros [Hchain (x & Hx)] Hrm Hrd Hstep.
  assert (Hu : p ++ s <> []).
  { destruct Hstep as [(_ & n & Hl & _) | (_ & Hl)];
      now apply lstat_nonempty in Hl. }
  destruct (is_prefix s q) eqn:Hsq.
  - exfalso. apply is_prefix_split in Hsq as (q2 & ->).
    destruct q2 as [| a q2].
    + rewrite app_nil_r in *.
      destruct Hstep as [(Hg & _) | (Hg & _)]; congruence.
    + destruct (Hchain s (a :: q2) eq_refl) as (es & Hes); [easy |].
      destruct Hstep as [(_ & n & Hl & Hd) | (_ & Hl)];
        apply lstat_lookup in Hl; rewrite Hes in Hl.
      * injection Hl as <-. discriminate.
      * injection Hl as ->.
        assert (Hnext : exists m, lookup r (p ++ s ++ [a]) = Some m).
        { destruct q2 as [| b q2].
          - now exists x.
          - destruct (Hchain (s ++ [a]) (b :: q2)) as (es' & He');
              [now rewrite <- app_assoc | easy |].
            now exists (Dir es'). }
        destruct Hnext as (m & Hm).
        rewrite app_assoc, lookup_snoc, Hes in Hm. discriminate.
  - assert (Hkeep : forall (y : pathname) n,
               is_prefix y q = true -> lookup r (p ++ y) = Some n ->
               exists n', lookup (unlink r (p ++ s)) (p ++ y) = Some n' /\
                          kind n' = kind n).
    { intros y n Hy Hn. apply unlink_kept; auto.
      rewrite is_prefix_app.
      destruct (is_prefix s y) eqn:Hsy; [| reflexivity].
      now rewrite (is_prefix_trans s y q Hsy Hy) in Hsq. }
    split.
    + intros q1 q2 -> Hq2.
      destruct (Hchain q1 q2 eq_refl Hq2) as (es & Hes).
      destruct (Hkeep q1 (Dir es)) as (n' & Hn' & K); auto.
      { rewrite <- (app_nil_r q1) at 1. now rewrite is_prefix_app. }
      apply kind_dir in K as (es' & ->). now exists es'.
    + destruct (Hkeep q x (is_prefix_refl q) Hx) as (n' & Hn' & _).
      now exists n'.
Qed.

Lemma removals_held rf (p q : pathname) r r' :
  removals rf p r r' ->
  rf SysRemove (p ++ q) = true -> rf SysRmdir (p ++ q) = true ->
  held r p q -> held r' p q.
Proof.
  intros H Hrm Hrd Hh.
  induction H as [| r' s n H IH Hg Hl Hd | r' s H IH Hg Hl]; [exact Hh | |].
  - apply (held_unlink rf); auto. left. split; [exact Hg |]. now exists n.
  - apply (held_unlink rf); auto.
Qed.

(** *** The system calls *)

Lemma with_root_root w : with_root w (root w) = w.
Proof. now destruct w. Qed.

Lemma os_listdir_raises p w e :
  os_listdir p w = Raise e -> exn_class e = OSError.
Proof.
  unfold os_listdir. destruct (refuses w SysListdir p);
    [now intros [= <-] |].
  destruct (stat (root w) p) as [[| | t | es] |];
    try discriminate; now intros [= <-].
Qed.

Lemma os_remove_raises p w e :
  fst (os_remove p w) = Raise e -> exn_class e = OSError.
Proof.
  unfold os_remove. destruct (refuses w SysRemove p);
    [now intros [= <-] |].
  destruct (lstat (root w) p) as [[| | t | es] |]; simpl;
    try discriminate; now intros [= <-].
Qed.

Lemma os_rmdir_raises p w e :
  fst (os_rmdir p w) = Raise e -> exn_class e = OSError.
Proof.
  unfold os_rmdir. destruct (refuses w SysRmdir p);
    [now intros [= <-] |].
  destruct (lstat (root w) p) as [[| | t | [| x es]] |]; simpl;
    try discriminate; now intros [= <-].
Qed.

(** A call whose [OSError] is caught returns, in the state the call
    left. *)
Lemma caught_OSError_returns
  (f : posix_world -> result unit * posix_world) :
  (forall w e, fst (f w) = Raise e -> exn_class e = OSError) ->
  forall w,
    try_except (call f) [OSError] (fun _ => ret tt) w = (Ok tt, snd (f w)).
Proof.
  intros Hf w. unfold try_except, call, ret.
  specialize (Hf w). destruct (f w) as [[[] | e] w1]; simpl in *.
  - reflexivity.
  - unfold except_matches, isinstance. simpl.
    now rewrite (Hf e eq_refl).
Qed.

Lemma removes_refl p w : removes p w w.
Proof.
  split; [apply removals_none | now rewrite with_root_root].
Qed.

Lemma removes_trans p w1 w2 w3 :
  removes p w1 w2 -> removes p w2 w3 -> removes p w1 w3.
Proof.
  intros [H12 E12] [H23 E23]. rewrite E12 in H23, E23. simpl in *.
  split; [| exact E23].
  now apply removals_trans with (root w2).
Qed.

Lemma removes_below (p : pathname) c w w' :
  removes (p ++ [c]) w w' -> removes p w w'.
Proof. intros [H E]. split; [now apply removals_below in H | exact E]. Qed.

Lemma os_remove_removes (p s : pathname) w :
  removes p w (snd (os_remove (p ++ s) w)).
Proof.
  unfold os_remove.
  destruct (refuses w SysRemove (p ++ s)) eqn:Hg; [apply removes_refl |].
  destruct (lstat (root w) (p ++ s)) as [n |] eqn:Hl; [| apply removes_refl].
  destruct n as [| | t | es]; try apply removes_refl; simpl;
    (split; [| reflexivity]); simpl;
    eapply removals_entry; eauto using removals_none.
Qed.

Lemma os_rmdir_removes (p s : pathname) w :
  removes p w (snd (os_rmdir (p ++ s) w)).
Proof.
  unfold os_rmdir.
  destruct (refuses w SysRmdir (p ++ s)) eqn:Hg; [apply removes_refl |].
  destruct (lstat (root w) (p ++ s)) as [n |] eqn:Hl; [| apply removes_refl].
  destruct n as [| | t | [| x es]]; try apply removes_refl; simpl.
  split; [| reflexivity]. simpl.
  apply removals_dir; auto using removals_none.
Qed.

(** *** One entry of the loop, on the file system *)

Lemma descends_dir w u :
  descends w u = true -> exists es, lstat (root w) u = Some (Dir es).
Proof.
  unfold descends, os_path_isdir, os_path_islink, stat.
  destruct (refuses w SysStat u); [discriminate |].
  destruct (lstat (root w) u) as [[| | t | es] |]; simpl; try discriminate.
  - destruct (follow t); discriminate.
  - intros _. now exists es.
Qed.

Lemma descends_granted w u :
  refuses w SysStat u = false ->
  descends w u
  = match lstat (root w) u with
    | Some (Dir _) => true
    | _ => false
    end.
Proof.
  intros Hg. unfold descends, os_path_isdir, os_path_islink, stat.
  rewrite Hg.
  destruct (lstat (root w) u) as [[| | t | es] |]; simpl; try reflexivity.
  destruct (follow t); reflexivity.
Qed.

(** A directory that is not a link is descended into, anything else is
    handed to [os.remove], whose [OSError] is dropped. *)
Lemma rmtree_entry_posix rw (rec : pathname -> M posix_world unit)
  (p : pathname) c w :
  _rmtree_entry (posix rw) rec p c w
  = if descends w (p ++ [c])
    then rec (p ++ [c]) w
    else (Ok tt, snd (os_remove (p ++ [c]) w)).
Proof.
  rewrite <- (caught_OSError_returns _ (os_remove_raises (p ++ [c]))).
  unfold _rmtree_entry, bind, query, descends. simpl.
  unfold try_except at 1. unfold ret.
  destruct (os_path_isdir (p ++ [c]) w) as [[|] | e] eqn:Ed.
  - destruct (os_path_islink (p ++ [c]) w) as [[|] | e] eqn:El;
      simpl; try reflexivity.
    unfold os_path_islink in El.
    destruct (refuses w SysStat (p ++ [c])); [discriminate |].
    destruct (lstat (root w) (p ++ [c])); discriminate.
  - reflexivity.
  - unfold os_path_isdir in Ed.
    destruct (refuses w SysStat (p ++ [c])); [discriminate |].
    destruct (stat (root w) (p ++ [c])) as [[| | t | es] |]; discriminate.
Qed.

(** *** The effect of [_rmtree]: removals at or below its path *)

Lemma for_each_removes {X} (p : pathname) (body : X -> M posix_world unit) :
  (forall x w, removes p w (snd (body x w))) ->
  forall xs w, removes p w (snd (for_each xs body w)).
Proof.
  intros Hb. induction xs as [| x xs IH]; intros w; simpl.
  - apply removes_refl.
  - unfold bind. specialize (Hb x w).
    destruct (body x w) as [[[] | e] w1]; simpl in Hb; [| exact Hb].
    apply removes_trans with w1; [exact Hb | apply IH].
Qed.

Lemma rmtree_removes rw : forall d (p : pathname) w,
  removes p w (snd (_rmtree (posix rw) d p w)).
Proof.
  induction d as [| d IH]; intros p w; simpl; [apply removes_refl |].
  unfold bind at 1, query at 1. simpl.
  destruct (os_listdir p w) as [names | e]; [| apply removes_refl].
  unfold bind.
  assert (Hloop : removes p w
            (snd (for_each names
                    (_rmtree_entry (posix rw) (_rmtree (posix rw) d) p) w))).
  { apply for_each_removes. intros c s. rewrite rmtree_entry_posix.
    destruct (descends s (p ++ [c])).
    - apply (removes_below p c), IH.
    - apply os_remove_removes. }
  destruct (for_each names
              (_rmtree_entry (posix rw) (_rmtree (posix rw) d) p) w)
    as [[[] | e] w1]; simpl in Hloop; [| exact Hloop].
  rewrite (caught_OSError_returns _ (os_rmdir_raises p)). simpl.
  apply removes_trans with w1; [exact Hloop |].
  rewrite <- (app_nil_r p) at 2. apply os_rmdir_removes.
Qed.

(** *** What [_rmtree] raises *)

Lemma for_each_raises {S X} (P : exn -> Prop) (body : X -> M S unit) :
  (forall x s e s', body x s = (Raise e, s') -> P e) ->
  forall xs s e s', for_each xs body s = (Raise e, s') -> P e.
Proof.
  intros Hb. induction xs as [| x xs IH]; intros s e s'; simpl.
  - discriminate.
  - unfold bind. destruct (body x s) as [[[] | e1] s1] eqn:E.
    + apply IH.
    + intros [= <- <-]. exact (Hb _ _ _ _ E).
Qed.

(** The recursion limit, or what some [os.listdir] at or below the path
    raised. *)
Lemma rmtree_raises rw : forall d (p : pathname) w e w',
  _rmtree (posix rw) d p w = (Raise e, w') ->
  e = recursion_limit_exceeded \/
  exists (u : pathname) w1,
    is_prefix p u = true /\ os_listdir u w1 = Raise e.
Proof.
  induction d as [| d IH]; intros p w e w'; simpl.
  - intros [= <- _]. now left.
  - unfold bind at 1, query at 1. simpl.
    destruct (os_listdir p w) as [names | e0] eqn:El.
    + unfold bind.
      destruct (for_each names
                  (_rmtree_entry (posix rw) (_rmtree (posix rw) d) p) w)
        as [[[] | e1] w1] eqn:E.
      * rewrite (caught_OSError_returns _ (os_rmdir_raises p)). discriminate.
      * intros [= <- _].
        apply (for_each_raises
                 (fun e => e = recursion_limit_exceeded \/
                           exists (u : pathname) w1,
                             is_prefix p u = true /\ os_listdir u w1 = Raise e))
          in E; [exact E |].
        intros c s e2 s2. rewrite rmtree_entry_posix.
        destruct (descends s (p ++ [c])); [| discriminate].
        intros H. apply IH in H as [H | (u & w2 & Hu & Hl)]; [now left |].
        right. exists u, w2. split; [| exact Hl].
        apply (is_prefix_trans p (p ++ [c]) u); [| exact Hu].
        rewrite <- (app_nil_r p) at 1. now rewrite is_prefix_app.
    + intros [= <- _]. right. exists p, w.
      split; [apply is_prefix_refl | exact El].
Qed.

Lemma rmtree_raises_class rw d (p : pathname) w e w' :
  _rmtree (posix rw) d p w = (Raise e, w') ->
  exn_class e = OSError \/ e = recursion_limit_exceeded.
Proof.
  intros H. apply rmtree_raises in H as [H | (u & w1 & _ & H)];
    [now right | left]. now apply os_listdir_raises in H.
Qed.

Lemma rmtree_exception_goes_on rw d (p : pathname) w e w' :
  _rmtree (posix rw) d p w = (Raise e, w') -> after_rmtree_raised e = Raise e.
Proof.
  intros H. unfold after_rmtree_raised, except_matches, isinstance.
  apply rmtree_raises_class in H as [H | ->]; [| reflexivity].
  simpl. now rewrite H.
Qed.

(** *** [_rmtree] on a directory where nothing is refused *)

Lemma grants_child w sc (p : pathname) c :
  grants w sc p -> grants w sc (p ++ [c]).
Proof. intros H s. rewrite <- app_assoc. apply H. Qed.

Lemma grants_self w sc (p : pathname) : grants w sc p -> refuses w sc p = false.
Proof. intros H. specialize (H []). now rewrite app_nil_r in H. Qed.

Lemma unlink_entry r (p : pathname) c es :
  lookup r p = Some (Dir es) ->
  unlink r (p ++ [c]) = update r p (fun _ => Dir (drop_entry c es)).
Proof.
  intros H. rewrite unlink_snoc.
  now apply (update_at p r (Dir es)).
Qed.

Section Removes.

Variable rw : bool.
Variable d : nat.

(** What the recursive calls are assumed to do (they do: see
    [rmtree_removes_all]). *)
Hypothesis recursive_calls :
  forall w (q : pathname) c es,
    lookup (root w) (q ++ [c]) = Some (Dir es) ->
    height (Dir es) <= d ->
    (forall sc, grants w sc (q ++ [c])) ->
    _rmtree (posix rw) d (q ++ [c]) w
    = (Ok tt, with_root w (unlink (root w) (q ++ [c]))).

Lemma rmtree_entry_removes_all w (p : pathname) es c :
  lookup (root w) p = Some (Dir es) ->
  Forall (fun e => height (snd e) <= d) es ->
  (forall sc, grants w sc p) ->
  _rmtree_entry (posix rw) (_rmtree (posix rw) d) p c w
  = (Ok tt,
     with_root w (update (root w) p (fun _ => Dir (drop_entry c es)))).
Proof.
  intros Hp Hes Hg.
  pose proof (unlink_entry (root w) p c _ Hp) as Hun.
  assert (Hst : lstat (root w) (p ++ [c]) = find_entry c es).
  { rewrite lstat_snoc, lookup_snoc, Hp. reflexivity. }
  assert (Hgc : forall sc, refuses w sc (p ++ [c]) = false)
    by (intros sc; apply (Hg sc [c])).
  rewrite rmtree_entry_posix, (descends_granted _ _ (Hgc SysStat)), Hst.
  unfold os_remove. rewrite (Hgc SysRemove), Hst.
  destruct (find_entry c es) as [[| | t | es'] |] eqn:E; simpl;
    try (now rewrite Hun).
  - rewrite <- Hun. apply (recursive_calls w p c es').
    + now rewrite <- lstat_snoc.
    + apply find_entry_In in E. rewrite Forall_forall in Hes.
      exact (Hes _ E).
    + intros sc. now apply grants_child.
  - rewrite (drop_entry_missing c es E).
    rewrite (update_fixed p (root w) (Dir es)); auto.
    now rewrite with_root_root.
Qed.

Lemma rmtree_loop_removes_all (p : pathname) : forall names w es,
  lookup (root w) p = Some (Dir es) ->
  Forall (fun e => height (snd e) <= d) es ->
  (forall sc, grants w sc p) ->
  for_each names (_rmtree_entry (posix rw) (_rmtree (posix rw) d) p) w
  = (Ok tt,
     with_root w
       (update (root w) p
          (fun _ => Dir (fold_left (fun acc c => drop_entry c acc)
                                   names es)))).
Proof.
  induction names as [| c names IH]; intros w es Hp Hes Hg; simpl.
  - unfold ret. rewrite (update_fixed p (root w) (Dir es)); auto.
    now rewrite with_root_root.
  - unfold bind. rewrite (rmtree_entry_removes_all w p es c Hp Hes Hg).
    rewrite IH with (es := drop_entry c es).
    + simpl. rewrite update_twice. reflexivity.
    + simpl. now apply lookup_update with (m := Dir es).
    + rewrite Forall_forall in *. intros e He.
      apply Hes. now apply drop_entry_incl in He.
    + exact Hg.
Qed.

End Removes.

(** The directory at [q/c], where no call is refused and which is not
    deeper than the recursion allows, is removed whole, and nothing else
    is touched. *)
Lemma rmtree_removes_all rw : forall d w (q : pathname) c es,
  lookup (root w) (q ++ [c]) = Some (Dir es) ->
  height (Dir es) <= d ->
  (forall sc, grants w sc (q ++ [c])) ->
  _rmtree (posix rw) d (q ++ [c]) w
  = (Ok tt, with_root w (unlink (root w) (q ++ [c]))).
Proof.
  induction d as [| d IH]; intros w q c es Hl Hh Hg;
    [simpl in Hh; lia |].
  assert (Hes : Forall (fun e => height (snd e) <= d) es).
  { rewrite Forall_forall. intros e He.
    simpl in Hh. apply le_S_n in Hh.
    apply list_max_le in Hh. rewrite Forall_forall in Hh.
    apply Hh. now apply (in_map (fun e => height (snd e))). }
  simpl. unfold bind at 1, query at 1. simpl.
  unfold os_listdir, stat.
  rewrite (grants_self _ _ _ (Hg SysListdir)), lstat_snoc, Hl. simpl.
  unfold bind.
  rewrite (rmtree_loop_removes_all rw d IH (q ++ [c]) (map fst es) w es
             Hl Hes Hg).
  rewrite drop_listed_names.
  rewrite (caught_OSError_returns _ (os_rmdir_raises (q ++ [c]))).
  unfold os_rmdir. simpl.
  rewrite (grants_self _ _ _ (Hg SysRmdir)), lstat_snoc.
  rewrite (lookup_update (q ++ [c]) (root w) _ _ Hl). simpl.
  f_equal. unfold with_root. simpl. f_equal.
  rewrite !unlink_snoc, update_app, update_twice.
  apply update_ext. intros m. simpl.
  unfold drop_child. rewrite over_dir_twice.
  apply over_dir_ext. intros es0. apply drop_entry_update_entry.
Qed.

Lemma rmtree_removable rw d w (p : pathname) :
  removable w d p ->
  _rmtree (posix rw) d p w = (Ok tt, with_root w (unlink (root w) p)).
Proof.
  intros [(es & Hl & Hh) Hg].
  pose proof (lstat_nonempty _ _ _ Hl) as Hp.
  apply lstat_lookup in Hl.
  rewrite (pathname_snoc p Hp) in *.
  now apply (rmtree_removes_all rw d w _ _ es).
Qed.

(** *** [_rmtree] on a directory that can be listed throughout *)

Section Listable.

Variable rw : bool.
Variable d : nat.

Hypothesis recursive_calls :
  forall w (p : pathname) es,
    lstat (root w) p = Some (Dir es) -> height (Dir es) <= d ->
    grants w SysListdir p ->
    exists w', _rmtree (posix rw) d p w = (Ok tt, w').

Lemma rmtree_entry_listable w (p : pathname) c :
  grants w SysListdir p ->
  (forall n, lookup (root w) (p ++ [c]) = Some n -> height n <= d) ->
  exists w',
    _rmtree_entry (posix rw) (_rmtree (posix rw) d) p c w = (Ok tt, w').
Proof.
  intros Hg Hh. rewrite rmtree_entry_posix.
  destruct (descends w (p ++ [c])) eqn:E; [| eexists; reflexivity].
  apply descends_dir in E as (es & Hl).
  apply (recursive_calls w (p ++ [c]) es Hl).
  - apply Hh. now rewrite <- lstat_snoc.
  - now apply grants_child.
Qed.

Lemma rmtree_loop_listable (p : pathname) : forall names w,
  grants w SysListdir p ->
  (forall c n, lookup (root w) (p ++ [c]) = Some n -> height n <= d) ->
  exists w',
    for_each names (_rmtree_entry (posix rw) (_rmtree (posix rw) d) p) w
    = (Ok tt, w').
Proof.
  induction names as [| c names IH]; intros w Hg Hh; simpl.
  - eexists; reflexivity.
  - destruct (rmtree_entry_listable w p c Hg (Hh c)) as (w1 & Hrun).
    unfold bind. rewrite Hrun.
    assert (Hrm : removes p w w1).
    { rewrite rmtree_entry_posix in Hrun.
      destruct (descends w (p ++ [c])).
      - apply (removes_below p c).
        pose proof (rmtree_removes rw d (p ++ [c]) w) as H.
        now rewrite Hrun in H.
      - injection Hrun as <-. apply os_remove_removes. }
    destruct Hrm as [Hrm Ew]. apply IH.
    + rewrite Ew. exact Hg.
    + intros c' n Hn.
      destruct (removals_shrunk _ _ _ _ Hrm _ _ Hn) as (n0 & Hn0 & Hle & _).
      specialize (Hh c' n0 Hn0). lia.
Qed.

End Listable.

(** Whatever removals are refused, [_rmtree] returns on a directory that
    can be listed throughout and is not deeper than the recursion
    allows. *)
Lemma rmtree_listable rw : forall d w (p : pathname) es,
  lstat (root w) p = Some (Dir es) -> height (Dir es) <= d ->
  grants w SysListdir p ->
  exists w', _rmtree (posix rw) d p w = (Ok tt, w').
Proof.
  induction d as [| d IH]; intros w p es Hs Hh Hg; [simpl in Hh; lia |].
  pose proof (lstat_lookup _ _ _ Hs) as Hl.
  simpl. unfold bind at 1, query at 1. simpl. unfold os_listdir, stat.
  rewrite (grants_self _ _ _ Hg), Hs. simpl. unfold bind.
  destruct (rmtree_loop_listable rw d IH p (map fst es) w Hg) as (w1 & Hrun).
  { intros c n. rewrite lookup_snoc, Hl. unfold child. simpl. intros Hc.
    apply height_entry in Hc. lia. }
  rewrite Hrun.
  rewrite (caught_OSError_returns _ (os_rmdir_raises p)).
  eexists; reflexivity.
Qed.

(** *** [cleanup], whatever the class attributes *)

Section Cleanup.

Context {W : Type} (cls : class_attributes W).

Lemma cleanup_closed d warn (st : state W) :
  _closed (self st) = true -> cleanup cls d warn st = (Ok tt, st).
Proof.
  intros H. unfold cleanup. rewrite H, andb_false_r.
  now destruct (name (self st)).
Qed.

Lemma cleanup_no_name d warn (st : state W) :
  truthy (name (self st)) = false -> cleanup cls d warn st = (Ok tt, st).
Proof.
  intros H. unfold cleanup. rewrite H. now destruct (name (self st)).
Qed.

(** How a call of [cleanup] that has something to do goes on after
    [_rmtree]. *)
Lemma cleanup_after_rmtree d warn (st : state W) (p : pathname) :
  name (self st) = Some p -> truthy (Some p) = true ->
  _closed (self st) = false ->
  cleanup cls d warn st
  = match _rmtree cls d p (world st) with
    | (Raise e, w1) => (after_rmtree_raised e, left_open st w1)
    | (Ok _, w1) => after_rmtree_returned cls warn st w1
    end.
Proof.
  intros Hn Ht Hc. unfold cleanup. rewrite Hn, Ht, Hc.
  cbn [andb negb].
  unfold bind, try_except, on_world, after_rmtree_raised, left_open,
    after_rmtree_returned.
  destruct (_rmtree cls d p (world st)) as [[[] | e] w1].
  - cbn [ret set__closed world self].
    destruct warn; [| reflexivity].
    unfold warn_implicit_cleanup, on_world, call, raise, closed_with.
    cbn [world self name _closed].
    destruct (ResourceWarning_defined cls); reflexivity.
  - destruct (except_matches [TypeError; AttributeError] e); [| reflexivity].
    now destruct (str_contains "None" (exn_str e)).
Qed.

Lemma after_rmtree_returned_closed warn (st : state W) w1 :
  self (snd (after_rmtree_returned cls warn st w1))
  = {| _closed := true; name := name (self st) |}.
Proof.
  unfold after_rmtree_returned.
  destruct warn; [| reflexivity].
  destruct (ResourceWarning_defined cls); [| reflexivity].
  now destruct (_warn cls _ ResourceWarning w1).
Qed.

End Cleanup.

(** On the file system a call that returns leaves the object closed, or
    had nothing to do. *)
Lemma cleanup_returned rw d warn (st st' : state posix_world) :
  cleanup (posix rw) d warn st = (Ok tt, st') ->
  _closed (self st') = true \/
  (st' = st /\ truthy (name (self st)) = false).
Proof.
  destruct (truthy (name (self st))) eqn:Ht;
    [| rewrite cleanup_no_name by exact Ht; intros [= <-]; now right].
  destruct (_closed (self st)) eqn:Hc;
    [rewrite cleanup_closed by (exact Hc); intros [= <-]; now left |].
  destruct (name (self st)) as [p |] eqn:Hn; [| discriminate].
  rewrite (cleanup_after_rmtree _ d warn st p Hn Ht Hc).
  destruct (_rmtree (posix rw) d p (world st)) as [[[] | e] w1] eqn:Hr.
  - intros H. left.
    pose proof (after_rmtree_returned_closed (posix rw) warn st w1) as Hs.
    rewrite H in Hs. simpl in Hs. now rewrite Hs.
  - rewrite (rmtree_exception_goes_on _ _ _ _ _ _ Hr). discriminate.
Qed.

Lemma cleanup_twice_posix rw d d' warn warn' (st : state posix_world) :
  (cleanup (posix rw) d warn ;;; cleanup (posix rw) d' warn') st
  = cleanup (posix rw) d warn st.
Proof.
  unfold bind.
  destruct (cleanup (posix rw) d warn st) as [[[] | e] st'] eqn:H;
    try reflexivity.
  destruct (cleanup_returned _ _ _ _ _ H) as [Hc | [-> Hn]].
  - now apply cleanup_closed.
  - now apply cleanup_no_name.
Qed.

(** *** [cleanup] on the file system *)

Lemma lstat_nonempty_lookup r (p : pathname) :
  p <> [] -> lstat r p = lookup r p.
Proof. destruct p; [easy | reflexivity]. Qed.

Lemma removable_truthy w d (p : pathname) :
  removable w d p -> truthy (Some p) = true.
Proof. intros [(es & Hl & _) _]. destruct p; [discriminate | reflexivity]. Qed.

Lemma removes_keeps p w w' :
  removes p w w' ->
  refuses w' = refuses w /\ action w' = action w /\ warnings w' = warnings w.
Proof. intros [_ ->]. now repeat split. Qed.

Lemma implicit_cleanup_message_posix rw (s : TemporaryDirectory) :
  implicit_cleanup_message (posix rw) s
  = ("Implicitly cleaning up <TemporaryDirectory "
       ++ repr_of_name (name s) ++ ">")%string.
Proof. reflexivity. Qed.

(** What the warning does once [_rmtree] has returned: it never touches
    the tree, and without [_warn] nothing happens at all. *)
Lemma after_rmtree_returned_posix rw warn (st : state posix_world) w1 :
  exists out w2,
    after_rmtree_returned (posix rw) warn st w1 = (out, closed_with st w2) /\
    root w2 = root w1 /\ refuses w2 = refuses w1 /\ action w2 = action w1 /\
    (warn = false -> out = Ok tt /\ w2 = w1).
Proof.
  unfold after_rmtree_returned.
  destruct warn; [| exists (Ok tt), w1; now repeat split].
  cbn [ResourceWarning_defined posix].
  destruct rw;
    [| eexists _, w1; split; [reflexivity | now repeat split]].
  cbn [_warn posix]. unfold warnings_warn.
  destruct (action w1) eqn:Ha;
    try (eexists _, _; split; [reflexivity | now repeat split]).
  destruct (existsb _ (warnings w1));
    eexists _, _; (split; [reflexivity | now repeat split]).
Qed.

Lemma cleanup_removable rw d warn (st : state posix_world) (p : pathname) :
  name (self st) = Some p -> _closed (self st) = false ->
  removable (world st) d p ->
  cleanup (posix rw) d warn st
  = after_rmtree_returned (posix rw) warn st
      (with_root (world st) (unlink (root (world st)) p)).
Proof.
  intros Hn Hc Hrm.
  rewrite (cleanup_after_rmtree _ d warn st p Hn (removable_truthy _ _ _ Hrm) Hc).
  now rewrite (rmtree_removable rw d (world st) p Hrm).
Qed.

(** On a directory that can be listed throughout, [_rmtree] returns, and
    an entry whose removal is refused is still there. *)
Lemma rmtree_stuck rw d w (p q : pathname) :
  stuck w d p q ->
  exists w1,
    _rmtree (posix rw) d p w = (Ok tt, w1) /\ removes p w w1 /\
    held (root w1) p q.
Proof.
  intros [(es & n & Hl & Hh & Hq & Hn) (Hg & Hr1 & Hr2)].
  destruct (rmtree_listable rw d w p es Hl Hh Hg) as (w1 & Hrun).
  exists w1. split; [exact Hrun |].
  pose proof (rmtree_removes rw d p w) as Hrm.
  rewrite Hrun in Hrm. simpl in Hrm. split; [exact Hrm |].
  destruct Hrm as [Hrm _].
  apply (removals_held _ p q _ _ Hrm Hr1 Hr2).
  apply held_start with es n; auto. now apply lstat_lookup.
Qed.

(** A call that sets [_closed] has run [_rmtree] to its end. *)
Lemma cleanup_sets_closed rw d warn (st st' : state posix_world) out :
  _closed (self st) = false ->
  cleanup (posix rw) d warn st = (out, st') ->
  _closed (self st') = true ->
  exists (p : pathname) w1,
    name (self st) = Some p /\
    _rmtree (posix rw) d p (world st) = (Ok tt, w1) /\
    removes p (world st) w1 /\
    after_rmtree_returned (posix rw) warn st w1 = (out, st').
Proof.
  intros Hc Hrun Hc'.
  destruct (truthy (name (self st))) eqn:Ht;
    [| rewrite cleanup_no_name in Hrun by exact Ht;
       injection Hrun as _ <-; congruence].
  destruct (name (self st)) as [p |] eqn:Hn; [| discriminate].
  rewrite (cleanup_after_rmtree _ d warn st p Hn Ht Hc) in Hrun.
  pose proof (rmtree_removes rw d p (world st)) as Hrm.
  destruct (_rmtree (posix rw) d p (world st)) as [[[] | e] w1] eqn:Hr.
  - exists p, w1. split; [reflexivity |]. split; [exact Hr |].
    split; [exact Hrm | exact Hrun].
  - injection Hrun as _ <-. simpl in Hc'. congruence.
Qed.

Lemma os_listdir_raises_which p w e :
  os_listdir p w = Raise e -> e = EACCES \/ e = ENOTDIR \/ e = ENOENT.
Proof.
  unfold os_listdir. destruct (refuses w SysListdir p); [intros [= <-]; auto |].
  destruct (stat (root w) p) as [[| | t | es] |]; intros [= <-]; auto.
Qed.

(** *** The claim on [cleanup] *)

(** C10, as the claim states it, fails: a call to [cleanup] that returns
    and sets [_closed] need not have removed the directory tree.  In a
    temporary directory holding a read-only subdirectory with a file,
    [os.remove] raises [OSError] on the file and [os.rmdir] on the two
    directories, [_rmtree] swallows them all, the call sets [_closed], and
    the directory is still there; the next call does not try again. *)
Lemma cleanup_closes_without_removing :
  cleanup (posix false) 3 false (open_tmpdir (frames_read_only tree_plain))
  = (Ok tt, closed_tmpdir (frames_read_only tree_left)) /\
  _closed (self (closed_tmpdir (frames_read_only tree_left))) = true /\
  lstat (root (world (closed_tmpdir (frames_read_only tree_left)))) tmpq3
  = Some (Dir [("frames", Dir [("0.webp", File)])]) /\
  cleanup (posix false) 3 false (closed_tmpdir (frames_read_only tree_left))
  = (Ok tt, closed_tmpdir (frames_read_only tree_left)) /\
  ~ closing_removes false 3 (open_tmpdir (frames_read_only tree_plain)).
Proof.
  repeat split.
  intros H.
  specialize (H tmpq3 (closed_tmpdir (frames_read_only tree_left))
                eq_refl eq_refl eq_refl).
  discriminate H.
Qed.

(** C10 (amended): once a call of [cleanup] has set [_closed], every
    later call, also through [__exit__] and [__del__], returns at once
    and removes and changes nothing, so cleaning up twice equals cleaning
    up once.  A call sets [_closed] only when [_rmtree] has returned,
    having done nothing but removals at or below the directory, and
    [_rmtree] swallows every [OSError] of [os.remove] and [os.rmdir]; so:
    when the directory nests no deeper than the recursion limit allows
    and no system call at or below it is refused, the call, with or
    without [_warn], removes the whole tree and sets [_closed]; when the
    directory can be listed throughout but the removal of some entry of
    it is refused, the call (returning normally when made without
    [_warn]) still sets [_closed], and the directory, with that entry, is
    left behind. *)
Theorem cleanup_idempotent (rw : bool) :
  (forall d warn (st : state posix_world) (p : pathname),
     name (self st) = Some p -> _closed (self st) = false ->
     removable (world st) d p ->
     exists out st',
       cleanup (posix rw) d warn st = (out, st') /\
       (warn = false -> out = Ok tt) /\
       self st' = {| _closed := true; name := Some p |} /\
       root (world st') = unlink (root (world st)) p /\
       lstat (root (world st')) p = None) /\
  (forall d warn (st : state posix_world) (p q : pathname),
     name (self st) = Some p -> _closed (self st) = false ->
     stuck (world st) d p q ->
     exists out st',
       cleanup (posix rw) d warn st = (out, st') /\
       (warn = false -> out = Ok tt) /\
       self st' = {| _closed := true; name := Some p |} /\
       (exists es, lstat (root (world st')) p = Some (Dir es)) /\
       (exists n, lstat (root (world st')) (p ++ q) = Some n)) /\
  (forall d warn (st st' : state posix_world) out,
     _closed (self st) = false ->
     cleanup (posix rw) d warn st = (out, st') ->
     _closed (self st') = true ->
     exists (p : pathname) w1,
       name (self st) = Some p /\
       _rmtree (posix rw) d p (world st) = (Ok tt, w1) /\
       removes p (world st) w1 /\
       root (world st') = root w1) /\
  (forall (st : state posix_world),
     _closed (self st) = true ->
     forall d warn,
       cleanup (posix rw) d warn st = (Ok tt, st) /\
       __exit__ (posix rw) d st = (Ok tt, st) /\
       __del__ (posix rw) d st = (Ok tt, st)) /\
  (forall d d' warn warn' (st : state posix_world),
     (cleanup (posix rw) d warn ;;; cleanup (posix rw) d' warn') st
     = cleanup (posix rw) d warn st).
Proof.
  split; [| split; [| split; [| split]]].
  - intros d warn st p Hn Hc Hrm.
    rewrite (cleanup_removable rw d warn st p Hn Hc Hrm).
    destruct (after_rmtree_returned_posix rw warn st
                (with_root (world st) (unlink (root (world st)) p)))
      as (out & w2 & -> & Hroot & _ & _ & Hout).
    exists out, (closed_with st w2).
    split; [reflexivity |]. split; [intros Hw; now apply Hout |].
    unfold closed_with. cbn [self world]. rewrite Hn, Hroot.
    split; [reflexivity |]. split; [reflexivity |]. apply lstat_unlink.
  - intros d warn st p q Hn Hc Hst.
    destruct (rmtree_stuck rw d (world st) p q Hst) as (w1 & Hr & _ & Hheld).
    destruct Hst as [(es & n & Hl & _ & Hq & _) _].
    pose proof (lstat_nonempty _ _ _ Hl) as Hp.
    assert (Ht : truthy (Some p) = true)
      by (destruct p; [contradiction | reflexivity]).
    rewrite (cleanup_after_rmtree _ d warn st p Hn Ht Hc), Hr.
    destruct (after_rmtree_returned_posix rw warn st w1)
      as (out & w2 & -> & Hroot & _ & _ & Hout).
    exists out, (closed_with st w2).
    split; [reflexivity |]. split; [intros Hw; now apply Hout |].
    unfold closed_with. cbn [self world]. rewrite Hn, Hroot.
    split; [reflexivity |]. split.
    + rewrite (lstat_nonempty_lookup _ p Hp).
      exact (held_dir _ _ _ Hheld Hq).
    + rewrite lstat_nonempty_lookup
        by (intros E; apply app_eq_nil in E; now destruct E).
      exact (proj2 Hheld).
  - intros d warn st st' out Hc Hrun Hc'.
    destruct (cleanup_sets_closed rw d warn st st' out Hc Hrun Hc')
      as (p & w1 & Hn & Hr & Hrm & Hafter).
    exists p, w1. split; [exact Hn |]. split; [exact Hr |].
    split; [exact Hrm |].
    destruct (after_rmtree_returned_posix rw warn st w1)
      as (out' & w2 & Heq & Hroot & _).
    rewrite Heq in Hafter. injection Hafter as _ <-. exact Hroot.
  - intros st Hc d warn. unfold __exit__, __del__.
    now rewrite !cleanup_closed.
  - intros d d' warn warn' st. apply cleanup_twice_posix.
Qed.

(** The amended statement on [tmp/tmpq3], which holds a file, a link to
    a directory and a subdirectory with a file: removed whole where
    nothing is refused, left with [frames/0.webp] where [frames] is
    read-only, and closed in both cases. *)
Lemma cleanup_idempotent_witness :
  (exists out st',
     cleanup (posix false) 3 true (open_tmpdir (granting tree_plain))
     = (out, st') /\
     self st' = {| _closed := true; name := Some tmpq3 |} /\
     root (world st') = tree_after /\
     lstat (root (world st')) tmpq3 = None) /\
  (exists st',
     cleanup (posix false) 3 false (open_tmpdir (frames_read_only tree_plain))
     = (Ok tt, st') /\
     self st' = {| _closed := true; name := Some tmpq3 |} /\
     (exists es, lstat (root (world st')) tmpq3 = Some (Dir es)) /\
     (exists n,
        lstat (root (world st')) (tmpq3 ++ ["frames"; "0.webp"]) = Some n)) /\
  __del__ (posix false) 1 (closed_tmpdir (frames_read_only tree_left))
  = (Ok tt, closed_tmpdir (frames_read_only tree_left)).
Proof.
  destruct (cleanup_idempotent false) as (Hremoves & Hleft & _ & Hlater & _).
  split; [| split].
  - destruct (Hremoves 3 true (open_tmpdir (granting tree_plain)) tmpq3
                eq_refl eq_refl)
      as (out & st' & Hrun & _ & Hself & Hroot & Hgone).
    + split.
      * eexists. split; [reflexivity |]. vm_compute. lia.
      * intros sc s. reflexivity.
    + exists out, st'. now repeat split.
  - destruct (Hleft 3 false (open_tmpdir (frames_read_only tree_plain)) tmpq3
                ["frames"; "0.webp"] eq_refl eq_refl)
      as (out & st' & Hrun & Hout & Hself & Hdir & Hentry).
    + split.
      * eexists _, _. split; [reflexivity |].
        split; [vm_compute; lia |]. split; [discriminate | reflexivity].
      * split; [intros s; reflexivity | split; reflexivity].
    + exists st'. rewrite <- (Hout eq_refl). now repeat split.
  - exact (proj2 (proj2 (Hlater (closed_tmpdir (frames_read_only tree_left))
                           eq_refl 1 true))).
Defined.

(** *** [_rmtree] *)



(** X2: whatever its outcome, all that [_rmtree(path)] does to the world
    is a sequence of removals at or below [path], each one of a file or
    link that [os.remove] is not refused, or of an empty directory that
    [os.rmdir] is not refused; so whatever a path reaches afterwards it
    reached before, as the same kind of node. *)
Theorem rmtree_only_removes rw d (p : pathname) w out w' :
  _rmtree (posix rw) d p w = (out, w') ->
  removes p w w' /\ shrunk (root w) (root w').
Proof.
  intros Hrun.
  pose proof (rmtree_removes rw d p w) as Hrm.
  rewrite Hrun in Hrm. simpl in Hrm.
  split; [exact Hrm |]. destruct Hrm as [Hrm _].
  exact (removals_shrunk _ _ _ _ Hrm).
Qed.

Lemma rmtree_only_removes_witness :
  removes tmpq3 (frames_read_only tree_plain) (frames_read_only tree_left) /\
  shrunk tree_plain tree_left.
Proof.
  apply (rmtree_only_removes false 3 tmpq3 (frames_read_only tree_plain)
           (Ok tt) (frames_read_only tree_left)).
  reflexivity.
Defined.

(** X3: on a directory that can be listed throughout and nests no deeper
    than the recursion limit allows, [_rmtree] returns without raising,
    whatever removals are refused: every [OSError] of [os.remove],
    [os.rmdir], [os.path.isdir] and [os.path.islink] is swallowed, and what
    cannot be removed is left silently. *)
Theorem rmtree_listable_never_raises rw d w (p : pathname) es :
  lstat (root w) p = Some (Dir es) -> height (Dir es) <= d ->
  grants w SysListdir p ->
  exists w', _rmtree (posix rw) d p w = (Ok tt, w') /\ removes p w w'.
Proof.
  intros Hl Hh Hg.
  destruct (rmtree_listable rw d w p es Hl Hh Hg) as (w' & Hrun).
  exists w'. split; [exact Hrun |].
  pose proof (rmtree_removes rw d p w) as Hrm.
  now rewrite Hrun in Hrm.
Qed.

Lemma rmtree_listable_never_raises_witness :
  exists w',
    _rmtree (posix false) 3 tmpq3 (frames_read_only tree_plain) = (Ok tt, w') /\
    removes tmpq3 (frames_read_only tree_plain) w'.
Proof.
  apply (rmtree_listable_never_raises false 3 (frames_read_only tree_plain)
           tmpq3
           [("image.webp", File);
            ("latest", Symlink (Dir [("kept.webp", File)]));
            ("frames", Dir [("0.webp", File)])]).
  - reflexivity.
  - vm_compute. lia.
  - intros s. reflexivity.
Defined.

(** *** [cleanup] *)

(** X4: when [_rmtree] raises, [cleanup] leaves the object as it was, with
    [_closed] unset, and issues no warning; a [TypeError] or
    [AttributeError] whose text holds [None] is dropped and the call
    returns, every other exception propagates. *)
Theorem cleanup_when_rmtree_raises {W} (cls : class_attributes W) d warn
  (st : state W) (p : pathname) e w1 :
  name (self st) = Some p -> truthy (Some p) = true ->
  _closed (self st) = false ->
  _rmtree cls d p (world st) = (Raise e, w1) ->
  cleanup cls d warn st = (after_rmtree_raised e, left_open st w1) /\
  _closed (self (left_open st w1)) = false /\
  (isinstance e TypeError || isinstance e AttributeError = false ->
   after_rmtree_raised e = Raise e) /\
  (str_contains "None" (exn_str e) = false -> after_rmtree_raised e = Raise e).
Proof.
  intros Hn Ht Hc Hr.
  rewrite (cleanup_after_rmtree cls d warn st p Hn Ht Hc), Hr.
  split; [reflexivity |]. split; [exact Hc |].
  unfold after_rmtree_raised, except_matches. simpl.
  rewrite orb_false_r.
  split; intros ->; [reflexivity | now rewrite andb_false_r].
Qed.

Lemma cleanup_when_rmtree_raises_witness :
  cleanup posix_listdir_None 4 true (open_tmpdir (granting tree_plain))
  = (Ok tt, open_tmpdir (granting tree_plain)) /\
  cleanup (posix false) 4 true (open_tmpdir (tmpq3_unlistable tree_plain))
  = (Raise EACCES, open_tmpdir (tmpq3_unlistable tree_plain)).
Proof.
  split.
  - apply (cleanup_when_rmtree_raises posix_listdir_None 4 true
             (open_tmpdir (granting tree_plain)) tmpq3
             (mk_exn TypeError "'NoneType' object is not callable")
             (granting tree_plain));
      reflexivity.
  - apply (cleanup_when_rmtree_raises (posix false) 4 true
             (open_tmpdir (tmpq3_unlistable tree_plain)) tmpq3 EACCES
             (tmpq3_unlistable tree_plain));
      reflexivity.
Defined.



(** X6: [cleanup] writes a warning in one case only: it is called with
    [_warn] (as [__del__] does), the name [ResourceWarning] exists, this
    very call set [_closed], and the warnings filter neither drops the
    warning nor turns it into an error.  The call then returns, having
    appended the single [ResourceWarning] whose text is [Implicitly
    cleaning up <TemporaryDirectory ...>] with the [repr] of the name.  In
    every other case the warnings are as they were.  Under a filter that
    shows every warning, the case does lead to the warning. *)
Theorem cleanup_warns_once rw d warn (st : state posix_world) :
  (warnings (world (snd (cleanup (posix rw) d warn st)))
   = warnings (world st) \/
   (warn = true /\ rw = true /\ _closed (self st) = false /\
    _closed (self (snd (cleanup (posix rw) d warn st))) = true /\
    fst (cleanup (posix rw) d warn st) = Ok tt /\
    (action (world st) = ActAlways \/ action (world st) = ActOnce) /\
    warnings (world (snd (cleanup (posix rw) d warn st)))
    = warnings (world st)
      ++ [(ResourceWarning,
           ("Implicitly cleaning up <TemporaryDirectory "
              ++ repr_of_name (name (self st)) ++ ">")%string)])) /\
  (warn = true -> rw = true -> _closed (self st) = false ->
   _closed (self (snd (cleanup (posix rw) d warn st))) = true ->
   action (world st) = ActAlways ->
   cleanup (posix rw) d warn st
   = (Ok tt,
      {| world :=
           with_warning
             (with_root (world st)
                (root (world (snd (cleanup (posix rw) d warn st)))))
             (ResourceWarning,
              ("Implicitly cleaning up <TemporaryDirectory "
                 ++ repr_of_name (name (self st)) ++ ">")%string);
         self := {| _closed := true; name := name (self st) |} |})).
Proof.
  destruct (truthy (name (self st))) eqn:Ht;
    [| rewrite cleanup_no_name by exact Ht; split; [now left |];
       simpl; congruence].
  destruct (_closed (self st)) eqn:Hc;
    [rewrite cleanup_closed by (exact Hc); split; [now left | discriminate] |].
  destruct (name (self st)) as [p |] eqn:Hn; [| discriminate].
  rewrite (cleanup_after_rmtree _ d warn st p Hn Ht Hc).
  pose proof (rmtree_removes rw d p (world st)) as Hrm.
  destruct (_rmtree (posix rw) d p (world st)) as [[[] | e1] w1] eqn:Hr;
    simpl in Hrm; destruct (removes_keeps _ _ _ Hrm) as (_ & Ha & Hw);
    [| split; [now left | simpl; congruence]].
  destruct Hrm as [_ Ew1].
  unfold after_rmtree_returned.
  destruct warn; [| split; [now left | discriminate]].
  cbn [ResourceWarning_defined posix].
  destruct rw; [| split; [now left | discriminate]].
  cbn [_warn posix]. unfold warnings_warn. rewrite Ha.
  destruct (action (world st)) eqn:Hact;
    try (split; [now left | discriminate]).
  - cbn [snd fst world closed_with self _closed with_warning warnings root].
    rewrite Hw, Hn. split; [right; repeat split; auto |].
    intros _ _ _ _ _. rewrite Ew1 at 1. unfold closed_with.
    rewrite Hn. reflexivity.
  - split; [| discriminate].
    destruct (existsb _ (warnings w1)); [now left |].
    right. cbn [snd fst world closed_with self _closed with_warning warnings].
    rewrite Hw, Hn. repeat split; auto.
Qed.

Lemma cleanup_warns_once_witness :
  cleanup (posix true) 3 true (open_tmpdir (granting tree_plain))
  = (Ok tt,
     closed_tmpdir
       (with_warning (granting tree_after)
          (ResourceWarning,
           "Implicitly cleaning up <TemporaryDirectory 'tmp/tmpq3'>"))).
Proof.
  exact (proj2 (cleanup_warns_once true 3 true
                  (open_tmpdir (granting tree_plain)))
           eq_refl eq_refl eq_refl eq_refl eq_refl).
Defined.



(** *** [__init__], [__enter__], [__exit__], [__del__] *)

(** X8: when [mkdtemp] raises, [__init__] raises the same, leaving [name] at
    [None] and [_closed] unset; on that object [cleanup], and so
    [__exit__] and [__del__], do nothing: they do not call [_rmtree], do not
    warn and do not raise. *)
Theorem init_mkdtemp_raises {W} (cls : class_attributes W)
  (mkdtemp : string -> string -> option pathname -> W -> result pathname * W)
  suffix prefix dir (st : state W) e w1 :
  mkdtemp suffix prefix dir (world st) = (Raise e, w1) ->
  __init__ mkdtemp suffix prefix dir st
  = (Raise e,
     {| world := w1; self := {| _closed := false; name := None |} |}) /\
  forall d warn,
    cleanup cls d warn
      {| world := w1; self := {| _closed := false; name := None |} |}
    = (Ok tt,
       {| world := w1; self := {| _closed := false; name := None |} |}).
Proof.
  intros Hm. split.
  - unfold __init__, bind, set__closed, set_name, on_world, call.
    cbn [world self name _closed]. now rewrite Hm.
  - intros d warn. now apply cleanup_no_name.
Qed.

Lemma init_mkdtemp_raises_witness :
  __init__ mkdtemp_denied "dir" "tmp" None (open_tmpdir (granting tree_plain))
  = (Raise EACCES, unnamed_tmpdir (granting tree_plain)) /\
  forall d warn,
    cleanup (posix false) d warn (unnamed_tmpdir (granting tree_plain))
    = (Ok tt, unnamed_tmpdir (granting tree_plain)).
Proof.
  apply (init_mkdtemp_raises (posix false) mkdtemp_denied "dir" "tmp" None
           (open_tmpdir (granting tree_plain)) EACCES (granting tree_plain)).
  reflexivity.
Defined.

(** X9: the [with] statement: [__init__] records the directory [mkdtemp]
    made, [__enter__] hands out its name; whatever the body then put into
    the directory, if it nests no deeper than the recursion limit allows
    and no system call at or below it is refused, [__exit__] removes it
    and returns, and the [__del__] that follows does nothing, so it neither
    warns nor meets a missing [ResourceWarning]. *)
Theorem with_statement rw
  (mkdtemp : string -> string -> option pathname -> posix_world ->
             result pathname * posix_world)
  suffix prefix dir (st : state posix_world) (p : pathname) w1 :
  mkdtemp suffix prefix dir (world st) = (Ok p, w1) ->
  __init__ mkdtemp suffix prefix dir st = (Ok tt, opened w1 p) /\
  __enter__ (opened w1 p) = (Ok (Some p), opened w1 p) /\
  forall d w2,
    removable w2 d p ->
    __exit__ (posix rw) d (opened w2 p)
    = (Ok tt, closed_with (opened w2 p) (with_root w2 (unlink (root w2) p))) /\
    lstat (unlink (root w2) p) p = None /\
    forall d',
      __del__ (posix rw) d'
        (closed_with (opened w2 p) (with_root w2 (unlink (root w2) p)))
      = (Ok tt,
         closed_with (opened w2 p) (with_root w2 (unlink (root w2) p))).
Proof.
  intros Hm. split; [| split].
  - unfold __init__, bind, set__closed, set_name, on_world, call.
    cbn [world self name _closed]. now rewrite Hm.
  - reflexivity.
  - intros d w2 Hrm.
    split; [| split; [apply lstat_unlink |]].
    + unfold __exit__.
      now rewrite (cleanup_removable rw d false (opened w2 p) p eq_refl
                     eq_refl Hrm).
    + intros d'. unfold __del__. now apply cleanup_closed.
Qed.

Lemma with_statement_witness :
  __init__ mkdtemp_tmpq3 EmptyString "tmp" None (unnamed_tmpdir (granting tree_after))
  = (Ok tt, opened (granting tree_fresh) tmpq3) /\
  __exit__ (posix false) 3 (opened (granting tree_plain) tmpq3)
  = (Ok tt, closed_tmpdir (granting tree_after)) /\
  __del__ (posix false) 3 (closed_tmpdir (granting tree_after))
  = (Ok tt, closed_tmpdir (granting tree_after)).
Proof.
  destruct (with_statement false mkdtemp_tmpq3 EmptyString "tmp" None
              (unnamed_tmpdir (granting tree_after)) tmpq3
              (granting tree_fresh) eq_refl)
    as (Hinit & _ & Hexit).
  split; [exact Hinit |].
  destruct (Hexit 3 (granting tree_plain)) as (Hrun & _ & Hdel).
  - split.
    + eexists. split; [reflexivity |]. vm_compute. lia.
    + intros sc s. reflexivity.
  - split; [exact Hrun | exact (Hdel 3)].
Defined.

(** *** The class at work *)

(** Under Python 2, [__del__] on a directory that was not cleaned up
    removes it, sets [_closed], and then fails on the name
    [ResourceWarning]. *)
Example del_python2 :
  __del__ (posix false) 3 (open_tmpdir (granting tree_plain))
  = (Raise (mk_exn NameError "global name 'ResourceWarning' is not defined"),
     closed_tmpdir (granting tree_after)).
Proof. reflexivity. Qed.

(** Where the name exists, the warning is issued. *)
Example del_with_ResourceWarning :
  __del__ (posix true) 3 (open_tmpdir (granting tree_plain))
  = (Ok tt,
     closed_tmpdir
       (with_warning (granting tree_after)
          (ResourceWarning,
           "Implicitly cleaning up <TemporaryDirectory 'tmp/tmpq3'>"))).
Proof. reflexivity. Qed.

End TempDirFacts.
